(** * simple_chatbot: the chat page and the request router

    A shallow embedding of the chat page of the Next.js frontend
    (its [send] handler) and of the router, index and indexer that the
    specification describes, with the properties claimed of them. *)

From Stdlib Require Import List Bool NArith ZArith Lia String Ascii.
From Stdlib Require PrimFloat.
From stdpp Require Import base gmap strings list fin_maps.
Import ListNotations.

Local Open Scope list_scope.
Set Warnings "-register-all".

(** ** JavaScript strings

    A JavaScript string is a sequence of UTF-16 code units. *)
Module JS.

Definition code_unit := N.
Definition jsstring := list code_unit.

(** A string literal of the source, all of whose characters are ASCII. *)
Definition lit (s : string) : jsstring :=
  map N_of_ascii (list_ascii_of_string s).

Fixpoint jsstring_eqb (a b : jsstring) : bool :=
  match a, b with
  | [], [] => true
  | x :: a', y :: b' => N.eqb x y && jsstring_eqb a' b'
  | _, _ => false
  end.

(** The code units [String.prototype.trim] strips: ECMAScript's WhiteSpace
    (TAB, VT, FF, SP, NBSP, ZWNBSP and the Unicode category Zs) and
    LineTerminator (LF, CR, LS, PS). *)
Definition is_ws (c : code_unit) : bool :=
  (existsb (N.eqb c)
     [9; 10; 11; 12; 13; 32; 160; 5760; 8232; 8233; 8239; 8287; 12288; 65279]
   || ((8192 <=? c) && (c <=? 8202)))%N.

Fixpoint trimStart (s : jsstring) : jsstring :=
  match s with
  | [] => []
  | c :: r => if is_ws c then trimStart r else s
  end.

Definition trimEnd (s : jsstring) : jsstring := rev (trimStart (rev s)).

Definition trim (s : jsstring) : jsstring := trimEnd (trimStart s).

(** ** JSON values, as [Response.json()] yields them *)
Inductive json : Type :=
| JNull
| JBool (b : bool)
| JNum (x : PrimFloat.float)
| JStr (s : jsstring)
| JArr (xs : list json)
| JObj (fields : list (jsstring * json)).

(** What a JavaScript expression evaluates to: a value, or an exception
    thrown. *)
Inductive thrown : Type := TypeError | SyntaxError | NetworkError.

Inductive completion (A : Type) : Type :=
| Normal (a : A)
| Throw (e : thrown).
Arguments Normal {A} a.
Arguments Throw {A} e.

Definition bind {A B} (m : completion A) (k : A -> completion B) : completion B :=
  match m with
  | Normal a => k a
  | Throw e => Throw e
  end.

(** A property read yields a JSON value or [undefined] ([None]). *)
Definition jsval := option json.

(** ToBoolean: [undefined], [null], [false], [+0], [-0], [NaN] and the empty
    string are falsy; every object and array is truthy. *)
Definition truthy (v : jsval) : bool :=
  match v with
  | None => false
  | Some JNull => false
  | Some (JBool b) => b
  | Some (JNum x) => negb (PrimFloat.is_zero x) && negb (PrimFloat.is_nan x)
  | Some (JStr s) => match s with [] => false | _ => true end
  | Some (JArr _) => true
  | Some (JObj _) => true
  end.

(** [JSON.parse] keeps the last of several members with one key. *)
Fixpoint own_property (fields : list (jsstring * json)) (key : jsstring) : jsval :=
  match fields with
  | [] => None
  | (k, v) :: rest =>
      match own_property rest key with
      | Some w => Some w
      | None => if jsstring_eqb k key then Some v else None
      end
  end.

(** [data.key] for a key that no built-in prototype defines (as [answer] and
    [error]): reading a property of [null] throws a TypeError, a primitive or
    an array has no such property, an object yields its own member. *)
Definition get (data : json) (key : jsstring) : completion jsval :=
  match data with
  | JNull => Throw TypeError
  | JObj fields => Normal (own_property fields key)
  | _ => Normal None
  end.

End JS.

(** ** The chat page (src/frontend/src/app/(dashboard)/chat/page.tsx) *)
Module ChatPage.
Import JS.

Inductive Role : Type := user | assistant.

(** [type Msg = { role: 'user' | 'assistant'; content: string }]; at run
    time [content] holds whatever the response's JSON held. *)
Record Msg : Type := mkMsg { role : Role; content : jsval }.

(** The component's state: the three [useState] cells. *)
Record State : Type := mkState {
  msgs : list Msg;
  input : jsstring;
  isLoading : bool
}.

(** [process.env.NEXT_PUBLIC_MCP_SERVER_URL || 'http://127.0.0.1:5000'] *)
Definition MCP_SERVER (env : option jsstring) : jsstring :=
  match env with
  | Some (c :: s) => c :: s
  | _ => lit "http://127.0.0.1:5000"
  end.

Record Request : Type := mkRequest {
  url : jsstring;
  method : jsstring;
  headers : list (jsstring * jsstring);
  body : json  (* the value handed to JSON.stringify *)
}.

(** What [await fetch(...)] and [await res.json()] give: the fetch promise
    rejects, or resolves to a response with its [ok] flag whose body parses
    as JSON ([Some]) or does not ([res.json()] rejects). *)
Inductive FetchOutcome : Type :=
| Rejected
| Resolved (ok : bool) (parsed : option json).

Definition ask_request (env : option jsstring) (question : jsstring) : Request :=
  {| url := MCP_SERVER env ++ lit "/ask";
     method := lit "POST";
     headers := [(lit "Content-Type", lit "application/json")];
     body := JObj [(lit "question", JStr question)] |}.

(** The guard of [send]: [if (!input.trim() || isLoading) return;] *)
Definition guard_blocks (st : State) : bool :=
  negb (truthy (Some (JStr (trim (input st))))) || isLoading st.

(** The body of the [try] block, after the fetch has settled: the content
    it assigns to [botMsg], or the exception it throws. *)
Definition try_block (o : FetchOutcome) : completion jsval :=
  match o with
  | Rejected => Throw NetworkError
  | Resolved ok parsed =>
      bind (match parsed with Some d => Normal d | None => Throw SyntaxError end)
        (fun data =>
           (* res.ok && data.answer *)
           bind (if ok then get data (lit "answer") else Normal (Some (JBool false)))
             (fun cond =>
                if truthy cond then
                  get data (lit "answer")
                else
                  (* data.error || 'An error occurred.' *)
                  bind (get data (lit "error"))
                    (fun e => Normal (if truthy e then e
                                      else Some (JStr (lit "An error occurred."))))))
  end.

(** [try { ... } catch (err) { botMsg.content = 'Error connecting to backend.'; }] *)
Definition bot_content (o : FetchOutcome) : jsval :=
  match try_block o with
  | Normal c => c
  | Throw _ => Some (JStr (lit "Error connecting to backend."))
  end.

(** The synchronous part of [send], up to the [await]: [None] when the guard
    returns, else the state after the three setters and the request. *)
Definition send_begin (env : option jsstring) (st : State) : option (State * Request) :=
  if guard_blocks st then None
  else
    let userMsg := {| role := user; content := Some (JStr (input st)) |} in
    Some ({| msgs := msgs st ++ [userMsg]; input := []; isLoading := true |},
          ask_request env (input st)).

(** The part of [send] after the fetch has settled, on the state of that
    moment: [setMsgs((m) => [...m, botMsg]); setIsLoading(false);] *)
Definition send_settle (o : FetchOutcome) (st : State) : State :=
  let botMsg := {| role := assistant; content := bot_content o |} in
  {| msgs := msgs st ++ [botMsg]; input := input st; isLoading := false |}.

(** One run of [send] against a network that answers each request with an
    outcome: the final state and the requests made. *)
Definition send (env : option jsstring) (net : Request -> FetchOutcome) (st : State)
  : State * list Request :=
  match send_begin env st with
  | None => (st, [])
  | Some (st1, req) => (send_settle (net req) st1, [req])
  end.

End ChatPage.

(** ** The data model of the core (specification, section 3) *)
Module Core.

Local Open Scope string_scope.

(** Modelled from the spec: the backend (index, indexer, classifier, router)
    is not among the sources; [DocumentRecord] is section 3's record. *)
Record DocumentRecord : Type := mkDocument {
  id : string;
  title : string;
  content : string;
  updatedAt : Z;
  sourceUri : string
}.

(** Modelled from the spec: section 3's [IndexedChunk]; the embedding is
    an "ordered sequence of float", binary64 numbers. *)
Record IndexedChunk : Type := mkChunk {
  documentId : string;
  chunkId : string;
  text : string;
  embedding : list PrimFloat.float
}.

(** Modelled from the spec: section 7's error taxonomy. A timeout is a
    subtype of [CompletionError] and [EmbeddingError] only. *)
Inductive Error : Type :=
| FetchError
| WriteError
| EmbeddingError (timeout : bool)
| CompletionError (timeout : bool)
| IndexBuildError
| MissingParameterError (parameter : string).

(** Modelled from the spec: a contract of section 6 "fails with" an error
    of the taxonomy or yields its value. *)
Inductive result (A : Type) : Type :=
| Ok (a : A)
| Err (e : Error).
Arguments Ok {A} a.
Arguments Err {A} e.

(** Modelled from the spec: section 7's timeouts, "a transient
    CompletionError/EmbeddingError subtype". *)
Definition is_timeout (e : Error) : bool :=
  match e with
  | EmbeddingError t | CompletionError t => t
  | _ => false
  end.

(** Modelled from the spec: whether a call failed. *)
Definition failed {A} (r : result A) : bool :=
  match r with Ok _ => false | Err _ => true end.

End Core.

(** ** The Embedding Index (specification, section 4.1) *)
Module EmbeddingIndex.
Import Core.

(** Modelled from the spec: the dot product of section 4.1's cosine
    similarity (the backend is not among the sources), accumulated from the
    first component on in binary64 arithmetic; it pairs the components up to
    the shorter vector. *)
Fixpoint dot_from (acc : PrimFloat.float) (a b : list PrimFloat.float)
  : PrimFloat.float :=
  match a, b with
  | x :: a', y :: b' => dot_from (PrimFloat.add acc (PrimFloat.mul x y)) a' b'
  | _, _ => acc
  end.

Definition dot (a b : list PrimFloat.float) : PrimFloat.float :=
  dot_from PrimFloat.zero a b.

(** Modelled from the spec: the L2 norm of section 4.1. *)
Definition norm (a : list PrimFloat.float) : PrimFloat.float :=
  PrimFloat.sqrt (dot a a).

(** Modelled from the spec: "dot product over product of L2 norms; a
    zero-norm embedding yields similarity 0". *)
Definition cosine_similarity (a b : list PrimFloat.float) : PrimFloat.float :=
  if PrimFloat.eqb (norm a) PrimFloat.zero then PrimFloat.zero
  else if PrimFloat.eqb (norm b) PrimFloat.zero then PrimFloat.zero
  else PrimFloat.div (dot a b) (PrimFloat.mul (norm a) (norm b)).

(** Modelled from the spec: section 3's index state, "mapping from chunkId to
    IndexedChunk, plus a secondary mapping from documentId to its chunk
    ids". *)
Record t : Type := mkIndex {
  chunks : gmap string IndexedChunk;
  byDocument : gmap string (gset string)
}.

(** Modelled from the spec: the empty index of section 3's invariant. *)
Definition empty : t := {| chunks := ∅; byDocument := ∅ |}.

(** Modelled from the spec: one chunk entered under its chunkId in the
    primary mapping and under its documentId in the secondary one. *)
Definition add_chunk (idx : t) (c : IndexedChunk) : t :=
  {| chunks := <[chunkId c := c]> (chunks idx);
     byDocument :=
       <[documentId c := {[chunkId c]} ∪ default ∅ (byDocument idx !! documentId c)]>
         (byDocument idx) |}.

(** Modelled from the spec: section 5's new structure, constructed "fully
    off to the side" from the chunks in order. *)
Definition build (new : list IndexedChunk) : t := fold_left add_chunk new empty.

(** Modelled from the spec: the dimension check of [rebuild]. *)
Definition has_dimension (D : nat) (c : IndexedChunk) : bool :=
  Nat.eqb (length (embedding c)) D.

(** Modelled from the spec: [rebuild] of section 4.1, on the live index: it
    "fails with IndexBuildError if any chunk's embedding dimension mismatches
    the configured D" and else publishes the new structure whole. *)
Definition rebuild (D : nat) (new : list IndexedChunk) (live : t) : result unit * t :=
  if forallb (has_dimension D) new
  then (Ok tt, build new)
  else (Err IndexBuildError, live).

(** Modelled from the spec: the result of [describe]. *)
Record Description : Type := mkDescription {
  documentCount : nat;
  chunkCount : nat
}.

(** Modelled from the spec: [describe] of section 4.1. *)
Definition describe (idx : t) : Description :=
  {| documentCount := size (byDocument idx); chunkCount := size (chunks idx) |}.

(** Modelled from the spec: a search result, [(chunkId, score)]. *)
Definition Hit : Type := (string * PrimFloat.float)%type.

(** Modelled from the spec: the order of section 4.1, "sorted descending by
    score, ties broken by ascending chunkId"; chunkIds compare
    lexicographically. *)
Definition ranks_before (a b : Hit) : bool :=
  if PrimFloat.ltb (snd b) (snd a) then true
  else if PrimFloat.ltb (snd a) (snd b) then false
  else String.leb (fst a) (fst b).

(** Modelled from the spec: the sort of the results, by insertion. *)
Fixpoint insert_hit (h : Hit) (l : list Hit) : list Hit :=
  match l with
  | [] => [h]
  | x :: r => if ranks_before h x then h :: x :: r else x :: insert_hit h r
  end.

(** Modelled from the spec: the results in the order of section 4.1. *)
Definition sort_hits (l : list Hit) : list Hit := fold_right insert_hit [] l.

(** Modelled from the spec: the score of every stored chunk against the
    query. *)
Definition score_all (q : list PrimFloat.float) (idx : t) : list Hit :=
  map (fun p => (fst p, cosine_similarity q (embedding (snd p))))
      (map_to_list (chunks idx)).

(** Modelled from the spec: [search] of section 4.1. *)
Definition search (q : list PrimFloat.float) (k : nat) (idx : t) : list Hit :=
  firstn k (sort_hits (score_all q idx)).

(** Modelled from the spec: the invariant of section 3, "every chunk's
    embedding has exactly dimension D". *)
Definition invariant (D : nat) (idx : t) : Prop :=
  forall cid c, chunks idx !! cid = Some c -> length (embedding c) = D.

End EmbeddingIndex.

(** ** The external capabilities (specification, section 6) *)
Module External.
Import Core.

(** Modelled from the spec: what the language model emits for the
    classifier of section 4.3, a label for the intent and the extracted
    parameters. *)
Record ModelOutput : Type := mkOutput {
  label : string;
  parameters : gmap string string
}.

(** Modelled from the spec: section 6's boundary capabilities, which the
    core consumes and collaborators implement. A call that section 7 lets
    time out takes the number of the attempt (0, then 1 for the retry), so
    that a retry may fare differently. *)
Record Capabilities : Type := mkCapabilities {
  listAll : result (list DocumentRecord);
  create : string -> string -> result DocumentRecord;
  embed : nat -> string -> result (list PrimFloat.float);
  complete : nat -> string -> list string -> result string;
  languageModel : nat -> string -> result ModelOutput
}.

End External.

(** ** The Indexer (specification, section 4.2) *)
Module Indexer.
Import Core External.

Local Open Scope string_scope.

(** Modelled from the spec: section 4.2's recognized chunking options. *)
Record ChunkingPolicy : Type := mkPolicy {
  chunkSize : nat;
  chunkOverlap : nat
}.

(** Modelled from the spec: the indexer's configuration, the chunking
    policy and the naming of a document's n-th chunk, which the specification
    leaves open. *)
Record Config : Type := mkConfig {
  policy : ChunkingPolicy;
  chunkIdOf : string -> nat -> string
}.

(** Modelled from the spec: size-bounded windows in order, each starting
    [step] characters after the last; a text no longer than a window is one
    chunk. The fuel bounds the number of windows by the text's length. *)
Fixpoint windows (fuel size step : nat) (s : string) : list string :=
  match fuel with
  | O => []
  | S fuel' =>
      if Nat.leb (String.length s) size then [s]
      else substring 0 size s
             :: windows fuel' size step (substring step (String.length s - step) s)
  end.

(** Modelled from the spec: section 3's chunking policy, "size-bounded text
    windows, order-preserving", with section 4.2's fixed window size and
    overlap; one document yields 1..N chunks. *)
Definition chunk_text (p : ChunkingPolicy) (s : string) : list string :=
  windows (S (String.length s)) (chunkSize p) (chunkSize p - chunkOverlap p) s.

(** Modelled from the spec: a chunk of the Indexer before its embedding is
    known. *)
Record Planned : Type := mkPlanned {
  ofDocument : string;
  plannedId : string;
  plannedText : string
}.

(** Modelled from the spec: the chunks of one document, in order. *)
Definition plan_document (cfg : Config) (d : DocumentRecord) : list Planned :=
  imap (fun i t => {| ofDocument := id d; plannedId := chunkIdOf cfg (id d) i;
                      plannedText := t |})
       (chunk_text (policy cfg) (content d)).

(** Modelled from the spec: the chunks of all the documents listed. *)
Definition plan (cfg : Config) (docs : list DocumentRecord) : list Planned :=
  flat_map (plan_document cfg) docs.

(** Modelled from the spec: section 4.2's best-effort embedding, one request
    per chunk; a chunk whose request fails is skipped and counted. *)
Fixpoint embed_all (caps : Capabilities) (ps : list Planned) : list IndexedChunk * nat :=
  match ps with
  | [] => ([], O)
  | p :: rest =>
      let '(done, skipped) := embed_all caps rest in
      match embed caps 0 (plannedText p) with
      | Ok v => ({| documentId := ofDocument p; chunkId := plannedId p;
                    text := plannedText p; embedding := v |} :: done, skipped)
      | Err _ => (done, S skipped)
      end
  end.

(** Modelled from the spec: whether the embedding request for a planned
    chunk fails. *)
Definition embedding_fails (caps : Capabilities) (p : Planned) : bool :=
  failed (embed caps 0 (plannedText p)).

(** Modelled from the spec: section 6's result of [reindex]. *)
Record Summary : Type := mkSummary {
  documentCount : nat;
  chunkCount : nat;
  skippedChunks : nat
}.

(** Modelled from the spec: [reindex] of sections 4.2 and 6 with its partial
    failure policy, on the live index. The summary counts the documents
    listed, the chunks handed to [rebuild] and the chunks skipped. *)
Definition reindex (caps : Capabilities) (cfg : Config) (D : nat) (live : EmbeddingIndex.t)
  : result Summary * EmbeddingIndex.t :=
  match listAll caps with
  | Err e => (Err e, live)
  | Ok docs =>
      let '(embedded, skipped) := embed_all caps (plan cfg docs) in
      match EmbeddingIndex.rebuild D embedded live with
      | (Err e, idx) => (Err e, idx)
      | (Ok _, idx) =>
          (Ok {| documentCount := length docs; chunkCount := length embedded;
                 skippedChunks := skipped |}, idx)
      end
  end.

End Indexer.

(** ** The Intent Classifier (specification, section 4.3) *)
Module Classifier.
Import Core External.

Local Open Scope string_scope.

(** Modelled from the spec: section 3's closed enumeration. *)
Inductive Intent : Type :=
| SEARCH_DOCS | GENERAL_QA | CREATE_DOCUMENT | LIST_FILES | UNKNOWN.

(** Modelled from the spec: the members of the enumeration. *)
Definition all_intents : list Intent :=
  [SEARCH_DOCS; GENERAL_QA; CREATE_DOCUMENT; LIST_FILES; UNKNOWN].

(** Modelled from the spec: the labels that name an intent of the
    enumeration. *)
Definition parse_intent (l : string) : option Intent :=
  if String.eqb l "SEARCH_DOCS" then Some SEARCH_DOCS
  else if String.eqb l "GENERAL_QA" then Some GENERAL_QA
  else if String.eqb l "CREATE_DOCUMENT" then Some CREATE_DOCUMENT
  else if String.eqb l "LIST_FILES" then Some LIST_FILES
  else if String.eqb l "UNKNOWN" then Some UNKNOWN
  else None.

(** Modelled from the spec: the model's output validated against the
    enumeration; an output that does not parse into a recognized intent is
    [UNKNOWN]. *)
Definition validate (out : ModelOutput) : Intent * gmap string string :=
  match parse_intent (label out) with
  | Some i => (i, parameters out)
  | None => (UNKNOWN, ∅)
  end.

(** Modelled from the spec: [classify] of section 4.3, one round trip to the
    language model and no retry of its own. *)
Definition classify (caps : Capabilities) (attempt : nat) (requestText : string)
  : result (Intent * gmap string string) :=
  match languageModel caps attempt requestText with
  | Ok out => Ok (validate out)
  | Err e => Err e
  end.

End Classifier.

(** ** The Router (specification, sections 4.4 and 7) *)
Module Router.
Import Core External Classifier.

Local Open Scope string_scope.

(** Modelled from the spec: an entry of section 3's [sources]. *)
Record Source : Type := mkSource {
  documentId : string;
  title : string;
  score : PrimFloat.float
}.

(** Modelled from the spec: section 3's [RouterResponse]. *)
Record RouterResponse : Type := mkResponse {
  answer : string;
  sources : list Source;
  error : option string
}.

(** Modelled from the spec: the collaborators a call of the router can go
    to, and the record of one call. *)
Inductive Callee : Type :=
| ToClassifier | ToEmbedder | ToCompletion | ToIndex | ToFetcher.

Record Call : Type := mkCall { callee : Callee; succeeded : bool }.

(** Modelled from the spec: a computation of the router, the calls made so
    far and a value, or the error that ended it. *)
Definition M (A : Type) : Type := list Call * result A.

Definition ret {A} (a : A) : M A := ([], Ok a).

Definition bind {A B} (m : M A) (k : A -> M B) : M B :=
  match m with
  | (log, Ok a) => let '(log', r) := k a in ((log ++ log')%list, r)
  | (log, Err e) => (log, Err e)
  end.

Notation "'let*' x ':=' m 'in' k" := (bind m (fun x => k))
  (at level 10, x name, m at level 100, k at level 200).

Definition raise {A} (e : Error) : M A := ([], Err e).

(** Modelled from the spec: one call to a collaborator, recorded. *)
Definition call {A} (who : Callee) (r : result A) : M A :=
  ([{| callee := who; succeeded := negb (failed r) |}], r).

(** Modelled from the spec: section 7's "Timeouts on external calls ... are
    retried at most once by the Router before surfacing". Whether the router
    retries a timeout once or not at all is its configuration ([retry]); when
    it does, the call that timed out is made once more, and every attempt is
    recorded. *)
Definition call_with_retry {A} (retry : bool) (who : Callee) (f : nat -> result A)
  : M A :=
  match f O with
  | Ok a => call who (Ok a)
  | Err e =>
      if retry && is_timeout e
      then bind ([{| callee := who; succeeded := false |}], Ok tt) (fun _ => call who (f 1%nat))
      else call who (Err e)
  end.

(** Modelled from the spec: a required parameter, "failing with
    MissingParameterError otherwise". *)
Definition require (params : gmap string string) (name : string) : M string :=
  match params !! name with
  | Some v => ret v
  | None => raise (MissingParameterError name)
  end.

(** Modelled from the spec: the router's configuration, the fixed top-k,
    whether a timeout is retried (once), the document titles it attaches to
    sources, and the wording of its fixed answers, which the specification
    leaves open. *)
Record Config : Type := mkConfig {
  topK : nat;
  retryTimeouts : bool;
  titles : gmap string string;
  noDocumentsAnswer : string;
  createdAnswer : DocumentRecord -> string;
  listingAnswer : list DocumentRecord -> string
}.

(** Modelled from the spec: the source entry and the text of a retrieved
    chunk. *)
Definition source_of (cfg : Config) (idx : EmbeddingIndex.t) (h : EmbeddingIndex.Hit)
  : option (Source * string) :=
  match EmbeddingIndex.chunks idx !! fst h with
  | Some c => Some ({| documentId := Core.documentId c;
                       title := default "" (titles cfg !! Core.documentId c);
                       score := snd h |}, text c)
  | None => None
  end.

(** Modelled from the spec: sources "deduplicated by document"; the first,
    best-ranked, chunk of each document stands for it. *)
Fixpoint dedupe (seen : gset string) (l : list Source) : list Source :=
  match l with
  | [] => []
  | s :: r =>
      if decide (documentId s ∈ seen) then dedupe seen r
      else s :: dedupe ({[documentId s]} ∪ seen) r
  end.

(** Modelled from the spec: a response with an answer and no sources. *)
Definition plain (a : string) : RouterResponse :=
  {| answer := a; sources := []; error := None |}.

(** Modelled from the spec: step 2 of section 4.4, dispatch by intent. A
    search takes its query from the parameter [query]. *)
Definition dispatch (caps : Capabilities) (cfg : Config) (idx : EmbeddingIndex.t)
  (intent : Intent) (params : gmap string string) (requestText : string)
  : M RouterResponse :=
  match intent with
  | SEARCH_DOCS =>
      let* query := require params "query" in
      let* q := call_with_retry (retryTimeouts cfg) ToEmbedder
               (fun n => embed caps n query) in
      let* hits := call ToIndex (Ok (EmbeddingIndex.search q (topK cfg) idx)) in
      if Nat.eqb (EmbeddingIndex.chunkCount (EmbeddingIndex.describe idx)) 0
      then ret (plain (noDocumentsAnswer cfg))
      else
        let found := omap (source_of cfg idx) hits in
        let* a := call_with_retry (retryTimeouts cfg) ToCompletion
               (fun n => complete caps n query (map snd found)) in
        ret {| answer := a; sources := dedupe ∅ (map fst found); error := None |}
  | GENERAL_QA | UNKNOWN =>
      let* a := call_with_retry (retryTimeouts cfg) ToCompletion
               (fun n => complete caps n requestText []) in
      ret (plain a)
  | CREATE_DOCUMENT =>
      let* t := require params "documentTitle" in
      let* b := require params "documentBody" in
      let* d := call ToFetcher (create caps t b) in
      ret (plain (createdAnswer cfg d))
  | LIST_FILES =>
      let* ds := call ToFetcher (listAll caps) in
      ret (plain (listingAnswer cfg ds))
  end.

(** Modelled from the spec: step 1 of section 4.4, the classification the
    router acts on. *)
Definition classification (caps : Capabilities) (cfg : Config) (requestText : string)
  : M (Intent * gmap string string) :=
  call_with_retry (retryTimeouts cfg) ToClassifier
    (fun n => classify caps n requestText).

(** Modelled from the spec: steps 1 to 3 of section 4.4, before the
    boundary. *)
Definition route (caps : Capabilities) (cfg : Config) (idx : EmbeddingIndex.t)
  (requestText : string) : M RouterResponse :=
  let* c := classification caps cfg requestText in
  dispatch caps cfg idx (fst c) (snd c) requestText.

(** Modelled from the spec: the text that names an error in a response. *)
Definition message (e : Error) : string :=
  match e with
  | FetchError => "FetchError"
  | WriteError => "WriteError"
  | EmbeddingError _ => "EmbeddingError"
  | CompletionError _ => "CompletionError"
  | IndexBuildError => "IndexBuildError"
  | MissingParameterError p => "MissingParameterError: " ++ p
  end.

(** Modelled from the spec: [resolve] of sections 4.4, 6 and 7: errors "are
    caught at the Router boundary and converted into a RouterResponse with
    error set and answer empty". The second component is the record of the
    calls made. *)
Definition resolve (caps : Capabilities) (cfg : Config) (idx : EmbeddingIndex.t)
  (requestText : string) : RouterResponse * list Call :=
  match route caps cfg idx requestText with
  | (log, Ok r) => (r, log)
  | (log, Err e) => ({| answer := ""; sources := []; error := Some (message e) |}, log)
  end.

(** Some call of the record failed. *)
Definition some_call_failed (log : list Call) : Prop :=
  exists i c, log !! i = Some c /\ succeeded c = false.

(** Some call of the record failed and was not retried: no call to the same
    collaborator follows it. *)
Definition some_failure_surfaced (log : list Call) : Prop :=
  exists i c, log !! i = Some c /\ succeeded c = false /\
              forall c', log !! S i = Some c' -> callee c' <> callee c.

(** In a computation of the router a failed call is followed by its retry,
    or the computation has ended in an error. *)
Definition failures_accounted {A} (m : M A) : Prop :=
  forall i c, fst m !! i = Some c -> succeeded c = false ->
    (exists c', fst m !! S i = Some c' /\ callee c' = callee c)
    \/ failed (snd m) = true.

(** In a computation of a router that retries nothing, a failed call ends
    the computation in an error. *)
Definition failures_final {A} (m : M A) : Prop :=
  forall i c, fst m !! i = Some c -> succeeded c = false -> failed (snd m) = true.


End Router.

(** ** The chat page's claimed behaviour, in the claim's own words *)
Module ChatPageClaim.
Import JS ChatPage.

(** A field of the response: missing when the body is not a JSON object. *)
Definition field (parsed : option json) (key : jsstring) : jsval :=
  match parsed with
  | Some (JObj fields) => own_property fields key
  | _ => None
  end.

(** The assistant's content as claimed: "the response's answer field when
    the HTTP response is ok and the answer is non-empty, otherwise ... the
    response's error field or the fallback text", and the connection error
    "when the fetch itself throws". *)
Definition claimed_content (o : FetchOutcome) : jsval :=
  match o with
  | Rejected => Some (JStr (lit "Error connecting to backend."))
  | Resolved ok parsed =>
      if ok && truthy (field parsed (lit "answer")) then field parsed (lit "answer")
      else if truthy (field parsed (lit "error")) then field parsed (lit "error")
      else Some (JStr (lit "An error occurred."))
  end.

(** The outcomes on which reading the response throws: the fetch rejects,
    the body does not parse as JSON, or it parses to [null]. *)
Definition reading_throws (o : FetchOutcome) : bool :=
  match o with
  | Rejected => true
  | Resolved _ None => true
  | Resolved _ (Some JNull) => true
  | Resolved _ (Some _) => false
  end.

(** The claimed content, with the connection error on every outcome on
    which reading the response throws. *)
Definition amended_content (o : FetchOutcome) : jsval :=
  if reading_throws o then Some (JStr (lit "Error connecting to backend."))
  else claimed_content o.

(** The input "hi" typed into an idle page with no messages. *)
Definition typed_hi : State :=
  {| msgs := []; input := lit "hi"; isLoading := false |}.

(** A backend that answers with a failure status and a body that is not
    JSON, as a gateway error page is. *)
Definition error_page (_ : Request) : FetchOutcome := Resolved false None.

(** A backend that answers 200 with the JSON body [null]. *)
Definition null_body (_ : Request) : FetchOutcome := Resolved true (Some JNull).

End ChatPageClaim.

(** ** Concrete inputs for the index *)
Module IndexExamples.
Import Core.

Local Open Scope string_scope.

(** Two chunks of dimension 1 that carry one chunkId. *)
Definition same_id_twice : list IndexedChunk :=
  [ {| documentId := "doc-a"; chunkId := "c1"; text := "apples"; embedding := [PrimFloat.one] |};
    {| documentId := "doc-b"; chunkId := "c1"; text := "cars"; embedding := [PrimFloat.two] |} ].

(** Two chunks of dimension 1 with chunkIds of their own. *)
Definition two_chunks : list IndexedChunk :=
  [ {| documentId := "doc-a"; chunkId := "c1"; text := "apples"; embedding := [PrimFloat.one] |};
    {| documentId := "doc-b"; chunkId := "c2"; text := "cars"; embedding := [PrimFloat.two] |} ].

(** A chunk of dimension 2. *)
Definition wide_chunk : IndexedChunk :=
  {| documentId := "doc-a"; chunkId := "c3"; text := "pears"; embedding := [PrimFloat.one; PrimFloat.zero] |}.

End IndexExamples.

(** ** Concrete collaborators for the indexer *)
Module IndexerExamples.
Import Core External Indexer.

Local Open Scope string_scope.

(** One document whose content makes three windows of four characters. *)
Definition one_document : DocumentRecord :=
  {| id := "doc-a"; title := "Doc A"; content := "aaaabbbbcccc";
     updatedAt := 0%Z; sourceUri := "store://doc-a" |}.

(** A stub whose embedder fails on the chunk "bbbb" and whose other calls
    succeed. *)
Definition stub_fails_on_one : Capabilities :=
  {| listAll := Ok [one_document];
     create := fun t b => Err WriteError;
     embed := fun _ t => if String.eqb t "bbbb" then Err (EmbeddingError false)
                         else Ok [PrimFloat.one];
     complete := fun _ _ _ => Err (CompletionError false);
     languageModel := fun _ _ => Err (CompletionError false) |}.

(** A stub whose listing fails. *)
Definition stub_listing_fails : Capabilities :=
  {| listAll := Err FetchError;
     create := fun t b => Err WriteError;
     embed := fun _ t => Ok [PrimFloat.one];
     complete := fun _ _ _ => Err (CompletionError false);
     languageModel := fun _ _ => Err (CompletionError false) |}.

Definition windows_of_four : Config :=
  {| policy := {| chunkSize := 4; chunkOverlap := 0 |};
     chunkIdOf := fun d i => d ++ "#" ++ String (ascii_of_nat (48 + i)) "" |}.

End IndexerExamples.

(** ** Concrete collaborators for the router *)
Module RouterExamples.
Import Core External Classifier Router.

Local Open Scope string_scope.


(** A completion that times out on the first attempt and answers on the
    retry, behind a language model that says GENERAL_QA. *)
Definition stub_times_out_once : Capabilities :=
  {| listAll := Err FetchError;
     create := fun t b => Err WriteError;
     embed := fun _ t => Err (EmbeddingError false);
     complete := fun n _ _ => match n with
                              | O => Err (CompletionError true)
                              | S _ => Ok "forty-two"
                              end;
     languageModel := fun _ _ => Ok {| label := "GENERAL_QA"; parameters := ∅ |} |}.

Definition plain_config : Config :=
  {| topK := 5;
     retryTimeouts := true;
     titles := ∅;
     noDocumentsAnswer := "no documents indexed";
     createdAnswer := fun d => "created " ++ Core.title d;
     listingAnswer := fun ds => "listed" |}.

End RouterExamples.

(** ** The chat page as a whole: its handlers, its events and what it
    renders (src/frontend/src/app/(dashboard)/chat/page.tsx) *)
Module ChatSession.
Import JS ChatPage.

(** The three [useState] cells as the component mounts. *)
Definition initial_state : State :=
  {| msgs := []; input := []; isLoading := false |}.

(** The synchronous part of the [send] that a render of the state [seen]
    created, run when the state is [st]: the guard, the user message and the
    request read [input] and [isLoading] from the closure, that is from
    [seen]; [setMsgs] updates the current list by its functional argument,
    [setInput] and [setIsLoading] overwrite. *)
Definition send_from (env : option jsstring) (seen st : State)
  : option (State * Request) :=
  if guard_blocks seen then None
  else
    let userMsg := {| role := user; content := Some (JStr (input seen)) |} in
    Some ({| msgs := msgs st ++ [userMsg]; input := []; isLoading := true |},
          ask_request env (input seen)).

(** The fields of a keyboard event that [handleKeyDown] reads. *)
Record KeyboardEvent : Type := mkKey { key : jsstring; shiftKey : bool }.

(** [handleKeyDown] of the render of [seen], run when the state is [st]:
    whether it called [preventDefault], and what the synchronous part of the
    [send] it started did ([None] when it started none or [send] returned at
    its guard). *)
Definition handleKeyDown (env : option jsstring) (e : KeyboardEvent) (seen st : State)
  : bool * option (State * Request) :=
  if jsstring_eqb (key e) (lit "Enter") && negb (shiftKey e)
  then (true, send_from env seen st)
  else (false, None).

(** The send button's [disabled={!input.trim() || isLoading}]. *)
Definition send_disabled (st : State) : bool :=
  negb (truthy (Some (JStr (trim (input st))))) || isLoading st.

(** One message row of the conversation: its [key], its [className], the
    avatar drawn and the text shown. *)
Record Row : Type := mkRow {
  rowKey : nat;
  rowClass : jsstring;
  avatar : Role;
  rowText : jsval
}.

Definition render_row (i : nat) (m : Msg) : Row :=
  {| rowKey := i;
     rowClass := (lit "py-6 "
                  ++ match role m with
                     | user => lit "bg-gray-50"
                     | assistant => lit "bg-white"
                     end)%list;
     avatar := role m;
     rowText := content m |}.

(** What React accepts for [{msg.content}]: a string or a number is drawn,
    a boolean, [null] or [undefined] draws nothing, an array is drawn item
    by item, and a plain object makes the render throw. *)
Fixpoint valid_json_child (j : json) : bool :=
  match j with
  | JObj _ => false
  | JArr xs => forallb valid_json_child xs
  | _ => true
  end.

Definition valid_child (v : jsval) : bool :=
  match v with
  | None => true
  | Some j => valid_json_child j
  end.

(** The message area: the placeholder "How can I help you today?" when
    [msgs.length === 0], else the rows and, when [isLoading], the row of
    bouncing dots. *)
Inductive Body : Type :=
| Placeholder
| Conversation (rows : list Row) (loadingRow : bool).

Record View : Type := mkView {
  messageArea : Body;
  textareaValue : jsstring;
  buttonDisabled : bool
}.

(** What the component renders for a state; [None] when the render throws
    because a message's content is no valid child. *)
Definition render (st : State) : option View :=
  if forallb (fun m => valid_child (content m)) (msgs st)
  then Some {| messageArea :=
                 match msgs st with
                 | [] => Placeholder
                 | _ :: _ => Conversation (imap render_row (msgs st)) (isLoading st)
                 end;
               textareaValue := input st;
               buttonDisabled := send_disabled st |}
  else None.

(** What can happen to the mounted page: the textarea's [onChange], its
    [onKeyDown], a click on the send button, the settling of one of the
    fetches in flight, and a re-render. *)
Inductive Event : Type :=
| Change (value : jsstring)
| KeyDown (e : KeyboardEvent)
| Click
| Settle (i : nat) (o : FetchOutcome)
| Render.

(** The page between events: the component's current state; the state the
    last render saw, which the handlers and the button of that render close
    over; whether the component is still mounted; the requests whose fetch
    has not settled yet; and every request made so far. *)
Record Page : Type := mkPage {
  ui : State;
  seen : State;
  alive : bool;
  inflight : list Request;
  sent : list Request
}.

Definition initial : Page :=
  {| ui := initial_state; seen := initial_state; alive := true;
     inflight := []; sent := [] |}.

(** The page after the synchronous part of a [send]. *)
Definition started (p : Page) (r : option (State * Request)) : Page :=
  match r with
  | None => p
  | Some (st, req) =>
      {| ui := st; seen := seen p; alive := alive p;
         inflight := (inflight p ++ [req])%list;
         sent := (sent p ++ [req])%list |}
  end.

(** One event. The handlers are those of the last render; a disabled button
    receives no click; a settling fetch resumes the [send] that awaited it;
    a render that throws unmounts the component, after which nothing
    happens any more. *)
Definition step (env : option jsstring) (p : Page) (ev : Event) : Page :=
  if alive p then
    match ev with
    | Change v =>
        {| ui := {| msgs := msgs (ui p); input := v; isLoading := isLoading (ui p) |};
           seen := seen p; alive := true; inflight := inflight p; sent := sent p |}
    | KeyDown e => started p (snd (handleKeyDown env e (seen p) (ui p)))
    | Click =>
        if send_disabled (seen p) then p
        else started p (send_from env (seen p) (ui p))
    | Settle i o =>
        match inflight p !! i with
        | None => p
        | Some _ =>
            {| ui := send_settle o (ui p); seen := seen p; alive := true;
               inflight := delete i (inflight p); sent := sent p |}
        end
    | Render =>
        match render (ui p) with
        | Some _ =>
            {| ui := ui p; seen := ui p; alive := true;
               inflight := inflight p; sent := sent p |}
        | None =>
            {| ui := ui p; seen := seen p; alive := false;
               inflight := inflight p; sent := sent p |}
        end
    end
  else p.

Definition run (env : option jsstring) (p : Page) (evs : list Event) : Page :=
  fold_left (step env) evs p.

(** A series of events with a re-render after each of them, as when every
    event is handled in a task of its own. *)
Definition rendered (evs : list Event) : list Event :=
  flat_map (fun ev => [ev; Render]) evs.

(** The roles of a conversation of [n] completed exchanges. *)
Fixpoint turns (n : nat) : list Role :=
  match n with
  | O => []
  | S n' => user :: assistant :: turns n'
  end.

Definition is_user (m : Msg) : bool :=
  match role m with user => true | assistant => false end.

(** The [question] member of a request's body. *)
Definition question (r : Request) : jsval :=
  match body r with
  | JObj fields => own_property fields (lit "question")
  | _ => None
  end.

(** A message as [send] makes them: a user message holds, as it was typed,
    one of the [typed] texts, with a character that is not white space; an
    assistant message holds a truthy value. *)
Definition well_formed_msg (typed : jsstring -> Prop) (m : Msg) : Prop :=
  match role m with
  | user => exists s, content m = Some (JStr s) /\ forallb is_ws s = false /\ typed s
  | assistant => truthy (content m) = true
  end.

(** What holds of the page between any two events, when the texts the
    textarea has reported so far are [typed]. *)
Record coherent (env : option jsstring) (typed : jsstring -> Prop) (p : Page)
  : Prop := mkCoherent {
  coh_asked :
    map question (sent p) = map content (List.filter is_user (msgs (ui p)));
  coh_requests :
    Forall (fun r => exists q, r = ask_request env q /\ forallb is_ws q = false)
           (sent p);
  coh_msgs : Forall (well_formed_msg typed) (msgs (ui p));
  coh_input : input (ui p) = [] \/ typed (input (ui p));
  coh_seen : input (seen p) = [] \/ typed (input (seen p));
  coh_count :
    (length (msgs (ui p)) + length (inflight p) = 2 * length (sent p))%nat;
  coh_pending : (length (inflight p) <= length (sent p))%nat;
  coh_loading : isLoading (ui p) = true -> inflight p <> []
}.

(** What holds, besides, of the request in flight and of the order of the
    messages when every event ran on a render of the state before it. *)
Record in_step (p : Page) : Prop := mkInStep {
  ins_flight : length (inflight p) = if isLoading (ui p) then 1%nat else 0%nat;
  ins_pending : exists settled, sent p = (settled ++ inflight p)%list;
  ins_roles :
    map role (msgs (ui p))
    = (turns (length (sent p) - length (inflight p))
       ++ (if isLoading (ui p) then [user] else []))%list
}.

(** A mounted page whose last render saw the current state. *)
Record synced (p : Page) : Prop := mkSynced {
  syn_step : in_step p;
  syn_seen : alive p = true -> seen p = ui p;
  syn_valid :
    alive p = true -> forallb (fun m => valid_child (content m)) (msgs (ui p)) = true
}.

(** The members [answer] and [error] of the response's body are strings
    where they are present, as the backend sends them. *)
Definition string_fields (o : FetchOutcome) : Prop :=
  match o with
  | Resolved _ (Some (JObj fields)) =>
      (forall v, own_property fields (lit "answer") = Some v -> exists s, v = JStr s) /\
      (forall v, own_property fields (lit "error") = Some v -> exists s, v = JStr s)
  | _ => True
  end.

(** The Enter key, pressed without Shift. *)
Definition plain_enter : KeyboardEvent := {| key := lit "Enter"; shiftKey := false |}.

End ChatSession.

(** ** The sidebar (src/frontend/src/components/ui/Sidebar.tsx) *)
Module Sidebar.
Import JS.

Inductive Icon : Type := MessageCircle | Link2 | Upload | Settings.

Record NavItem : Type := mkNav { href : jsstring; label : jsstring; icon : Icon }.

Definition nav : list NavItem :=
  [ {| href := lit "/chat"; label := lit "Chat"; icon := MessageCircle |};
    {| href := lit "/connections"; label := lit "Connections"; icon := Link2 |};
    {| href := lit "/uploads"; label := lit "Uploads"; icon := Upload |};
    {| href := lit "/settings"; label := lit "Settings"; icon := Settings |} ].

(** [clsx] on strings: the non-empty ones, joined by single spaces. *)
Fixpoint clsx (args : list jsstring) : jsstring :=
  match args with
  | [] => []
  | a :: rest =>
      match a, clsx rest with
      | [], t => t
      | _, [] => a
      | _, t => (a ++ lit " " ++ t)%list
      end
  end.

Definition base_classes : jsstring :=
  lit "flex items-center gap-3 rounded-xl px-4 py-3 text-sm font-medium transition-all duration-200".

Definition active_classes : jsstring :=
  lit "bg-white/10 text-white shadow-lg backdrop-blur-sm".

Definition inactive_classes : jsstring :=
  lit "text-gray-300 hover:bg-white/5 hover:text-white".

(** One [Link] of the navigation as rendered. *)
Record LinkView : Type := mkLink {
  linkKey : jsstring;
  target : jsstring;
  className : jsstring;
  glyph : Icon;
  caption : jsstring
}.

(** The links [Sidebar] renders when [usePathname()] yields [path]. *)
Definition render (path : jsstring) : list LinkView :=
  map (fun item =>
         {| linkKey := href item;
            target := href item;
            className := clsx [base_classes;
                               if jsstring_eqb path (href item)
                               then active_classes else inactive_classes];
            glyph := icon item;
            caption := label item |})
      nav.

(** A link drawn with the classes of the current page. *)
Definition highlighted (l : LinkView) : bool :=
  jsstring_eqb (className l) (clsx [base_classes; active_classes]).

End Sidebar.

(** ** The uploads page (src/frontend/src/app/(dashboard)/uploads/page.tsx) *)
Module UploadsPage.
Import JS.

(** A [File] of the DOM: its name, the one field the page reads, and its
    size. *)
Record File : Type := mkFile { name : jsstring; size : N }.

(** [handleSelect] on the page's [files] state; [e.target.files] is a
    [FileList] or [null]. *)
Definition handleSelect (files : list File) (targetFiles : option (list File))
  : list File :=
  match targetFiles with
  | None => files
  | Some fl => fl
  end.

Record View : Type := mkView {
  items : list (jsstring * jsstring);  (* key and text of each [li] *)
  uploadButton : bool
}.

(** What the page renders: one item per file, and the Upload button when
    [!!files.length]. *)
Definition render (files : list File) : View :=
  {| items := map (fun f => (name f, name f)) files;
     uploadButton := negb (Nat.eqb (length files) 0) |}.

(** The page's state after a series of change events of the file input,
    from the initial empty list. *)
Definition after (selections : list (option (list File))) : list File :=
  fold_left handleSelect selections [].

End UploadsPage.

(** * Properties *)

(** ** The chat page *)
Module ChatPageFacts.
Import JS ChatPage ChatPageClaim.

Lemma trimStart_nil_iff (s : jsstring) :
  trimStart s = [] <-> forallb is_ws s = true.
Proof.
  induction s as [|c r IH]; simpl; [tauto|].
  destruct (is_ws c); simpl; [exact IH|].
  split; discriminate.
Qed.

Lemma trimStart_suffix (s : jsstring) :
  exists p, s = (p ++ trimStart s)%list /\ forallb is_ws p = true.
Proof.
  induction s as [|c r [p [Hp Hw]]]; simpl.
  - exists []. split; reflexivity.
  - destruct (is_ws c) eqn:Hc.
    + exists (c :: p). simpl. rewrite Hc, Hw. split; [f_equal; exact Hp | reflexivity].
    + exists []. split; reflexivity.
Qed.

Lemma forallb_rev {A} (f : A -> bool) (l : list A) :
  forallb f (rev l) = forallb f l.
Proof.
  induction l as [|x l IH]; simpl; [reflexivity|].
  rewrite forallb_app, IH. simpl. rewrite andb_true_r. apply andb_comm.
Qed.

(** [input.trim()] is the empty string exactly for an input that is empty
    or made of white space only. *)
Lemma trim_nil_iff (s : jsstring) :
  trim s = [] <-> forallb is_ws s = true.
Proof.
  unfold trim, trimEnd. split.
  - intros H.
    assert (Hr : trimStart (rev (trimStart s)) = []).
    { apply (f_equal (@rev _)) in H. rewrite rev_involutive in H. exact H. }
    apply trimStart_nil_iff in Hr. rewrite forallb_rev in Hr.
    destruct (trimStart_suffix s) as [p [Hp Hw]].
    rewrite Hp, forallb_app, Hw, Hr. reflexivity.
  - intros H. apply trimStart_nil_iff in H. rewrite H. reflexivity.
Qed.

Lemma guard_blocks_iff (st : State) :
  guard_blocks st = true <->
  forallb is_ws (input st) = true \/ isLoading st = true.
Proof.
  unfold guard_blocks. rewrite orb_true_iff. simpl.
  rewrite <- trim_nil_iff.
  destruct (trim (input st)); simpl; intuition congruence.
Qed.

(** When nothing throws, the [try] block assigns what the claim says. *)
Lemma bot_content_amended (o : FetchOutcome) :
  bot_content o = amended_content o.
Proof.
  unfold bot_content, amended_content.
  destruct o as [|ok [data|]]; [reflexivity| |reflexivity].
  destruct data; destruct ok; simpl; try reflexivity;
    repeat match goal with
           | |- context [truthy ?v] => destruct (truthy v) eqn:?; simpl
           end; congruence.
Qed.

(** C10: calling [send] while the input is empty or white space only, or
    while a request is in flight, makes no network request and leaves the
    messages, the input text and the loading flag as they were. *)
Theorem send_blocked_is_noop (env : option jsstring) (net : Request -> FetchOutcome)
  (st : State) :
  forallb is_ws (input st) = true \/ isLoading st = true ->
  send env net st = (st, []).
Proof.
  intros H. apply guard_blocks_iff in H.
  unfold send, send_begin. rewrite H. reflexivity.
Qed.

Lemma send_blocked_is_noop_witness :
  send None error_page {| msgs := []; input := lit "  "; isLoading := false |}
  = ({| msgs := []; input := lit "  "; isLoading := false |}, []).
Proof.
  apply (send_blocked_is_noop None error_page
           {| msgs := []; input := lit "  "; isLoading := false |}).
  left. reflexivity.
Defined.

(** C9, as amended: every [send] that passes the guard appends one user
    message, then one assistant message, whose content is the connection
    error when the fetch rejects, the body does not parse or parses to
    [null], else the answer of an ok response with a truthy answer, else the
    response's error or the fallback text. *)
Theorem send_appends_user_then_assistant (env : option jsstring)
  (net : Request -> FetchOutcome) (st : State) :
  forallb is_ws (input st) = false ->
  isLoading st = false ->
  send env net st =
    ({| msgs := (msgs st
                 ++ [ {| role := user; content := Some (JStr (input st)) |};
                      {| role := assistant;
                         content := amended_content (net (ask_request env (input st))) |} ])%list;
        input := [];
        isLoading := false |},
     [ask_request env (input st)]).
Proof.
  intros Hws Hload.
  assert (Hg : guard_blocks st = false).
  { destruct (guard_blocks st) eqn:E; [|reflexivity].
    apply guard_blocks_iff in E. destruct E; congruence. }
  unfold send, send_begin. rewrite Hg.
  unfold send_settle. simpl. rewrite bot_content_amended, <- app_assoc. reflexivity.
Qed.

Lemma send_appends_user_then_assistant_witness :
  send None error_page typed_hi =
    ({| msgs := [ {| role := user; content := Some (JStr (lit "hi")) |};
                  {| role := assistant;
                     content := Some (JStr (lit "Error connecting to backend.")) |} ];
        input := [];
        isLoading := false |},
     [ask_request None (lit "hi")]).
Proof.
  apply (send_appends_user_then_assistant None error_page typed_hi); reflexivity.
Defined.

(** C9, as stated, fails: a response whose body is not JSON, or is the JSON
    [null], passes the guard and the fetch does not throw, yet the assistant
    message is the connection error and not the claimed fallback text. *)
Lemma send_unreadable_body_counterexample :
  forallb is_ws (input typed_hi) = false /\ isLoading typed_hi = false /\
  claimed_content (error_page (ask_request None (lit "hi")))
    = Some (JStr (lit "An error occurred.")) /\
  map content (msgs (fst (send None error_page typed_hi)))
    = [Some (JStr (lit "hi")); Some (JStr (lit "Error connecting to backend."))] /\
  claimed_content (null_body (ask_request None (lit "hi")))
    = Some (JStr (lit "An error occurred.")) /\
  map content (msgs (fst (send None null_body typed_hi)))
    = [Some (JStr (lit "hi")); Some (JStr (lit "Error connecting to backend."))] /\
  ~ (forall env net st,
       forallb is_ws (input st) = false -> isLoading st = false ->
       map content (msgs (fst (send env net st)))
       = (map content (msgs st)
          ++ [Some (JStr (input st));
              claimed_content (net (ask_request env (input st)))])%list).
Proof.
  repeat split; try reflexivity.
  intros H. specialize (H None error_page typed_hi eq_refl eq_refl).
  vm_compute in H. discriminate H.
Qed.

End ChatPageFacts.

(** ** Cosine similarity in binary64 arithmetic *)
Module EmbeddingIndexFacts.
Import Core EmbeddingIndex.

(** The guard of the division: a zero norm on either side gives 0. *)
Lemma cosine_similarity_zero_norm (a b : list PrimFloat.float) :
  PrimFloat.eqb (norm a) PrimFloat.zero = true
  \/ PrimFloat.eqb (norm b) PrimFloat.zero = true ->
  cosine_similarity a b = PrimFloat.zero.
Proof.
  unfold cosine_similarity. intros [H|H]; rewrite H; [reflexivity|].
  destruct (PrimFloat.eqb (norm a) PrimFloat.zero); reflexivity.
Qed.

(** A search returns at most [k] hits, and none on an empty index. *)
Lemma search_bounded (q : list PrimFloat.float) (k : nat) (idx : t) :
  (length (search q k idx) <= k)%nat /\
  (chunks idx = ∅ -> search q k idx = []).
Proof.
  unfold search. split; [apply firstn_le_length|].
  intros He. unfold score_all. rewrite He, map_to_list_empty. simpl.
  apply firstn_nil.
Qed.

End EmbeddingIndexFacts.

(** ** What rounding, underflow and overflow do to the formula *)
Module RoundingExamples.
Import PrimFloat.
Import Core EmbeddingIndex.

(** The similarity of (2, 3) with itself is the float above 1, and with
    its opposite the float below -1. *)
Example rounding_leaves_the_range :
  cosine_similarity [2; 3]%float [2; 3]%float = 0x1.0000000000001p+0%float /\
  PrimFloat.ltb 1%float (cosine_similarity [2; 3]%float [2; 3]%float) = true /\
  PrimFloat.ltb (cosine_similarity [2; 3]%float [(-2)%float; (-3)%float]) (-1)%float
  = true.
Proof. vm_compute. repeat split. Qed.

(** The square of a small component underflows to 0: the norm of a vector
    that is not zero is 0, and its similarity with itself is 0. *)
Example underflow_gives_zero :
  PrimFloat.eqb 0x1p-600%float 0%float = false /\
  cosine_similarity [0x1p-600%float] [0x1p-600%float] = 0%float.
Proof. vm_compute. repeat split. Qed.

(** The square of a large component overflows: the similarity of the
    vector with itself is not a number. *)
Example overflow_gives_nan :
  PrimFloat.is_nan (cosine_similarity [0x1p600%float] [0x1p600%float]) = true.
Proof. vm_compute. reflexivity. Qed.

End RoundingExamples.

(** ** The contract of the Embedding Index *)
Module IndexContract.
Import Core EmbeddingIndex IndexExamples.

Lemma build_chunks (new : list IndexedChunk) :
  forall acc, chunks (fold_left add_chunk new acc)
              = fold_left (fun m c => <[chunkId c := c]> m) new (chunks acc).
Proof.
  induction new as [|c new IH]; intros acc; simpl; [reflexivity|].
  rewrite IH. reflexivity.
Qed.

Lemma fold_insert_invariant (D : nat) (new : list IndexedChunk) :
  forall m : gmap string IndexedChunk,
    (forall cid c, m !! cid = Some c -> length (embedding c) = D) ->
    Forall (fun c => length (embedding c) = D) new ->
    forall cid c,
      fold_left (fun m c => <[chunkId c := c]> m) new m !! cid = Some c ->
      length (embedding c) = D.
Proof.
  induction new as [|x new IH]; intros m Hm Hall cid c; simpl; [apply Hm|].
  inversion Hall as [|? ? Hx Hrest]; subst.
  apply IH; [|exact Hrest].
  intros cid' c' Hl. destruct (decide (chunkId x = cid')) as [Heq|Hne].
  - subst cid'. rewrite lookup_insert_eq in Hl. congruence.
  - rewrite lookup_insert_ne in Hl by exact Hne. eapply Hm, Hl.
Qed.


Lemma forallb_has_dimension (D : nat) (new : list IndexedChunk) :
  forallb (has_dimension D) new = true
  <-> Forall (fun c => length (embedding c) = D) new.
Proof.
  rewrite forallb_forall, Forall_forall. unfold has_dimension.
  split; intros H c Hc.
  - apply Nat.eqb_eq, H, list_elem_of_In, Hc.
  - apply Nat.eqb_eq, H, list_elem_of_In, Hc.
Qed.

(** C4: [rebuild] fails with [IndexBuildError], leaving the live index in
    place, whenever some chunk's embedding dimension differs from D, and an
    index that a successful [rebuild] publishes has every stored chunk's
    embedding of dimension exactly D. *)
Theorem rebuild_checks_dimension (D : nat) (new : list IndexedChunk) (live : t) :
  (Exists (fun c => length (embedding c) <> D) new ->
   rebuild D new live = (Err IndexBuildError, live)) /\
  (forall idx, rebuild D new live = (Ok tt, idx) -> invariant D idx).
Proof.
  unfold rebuild. split.
  - intros Hbad. destruct (forallb (has_dimension D) new) eqn:E; [|reflexivity].
    apply forallb_has_dimension in E. apply Exists_exists in Hbad.
    destruct Hbad as [c [Hin Hc]]. rewrite Forall_forall in E.
    destruct (Hc (E c Hin)).
  - intros idx. destruct (forallb (has_dimension D) new) eqn:E; [|discriminate].
    apply forallb_has_dimension in E. intros [= <-].
    unfold invariant, build. intros cid c. rewrite build_chunks.
    apply fold_insert_invariant; [|exact E].
    intros cid' c'. simpl. rewrite lookup_empty. discriminate.
Qed.

Lemma rebuild_checks_dimension_witness :
  rebuild 1 (two_chunks ++ [wide_chunk]) (build two_chunks)
    = (Err IndexBuildError, build two_chunks)
  /\ invariant 1 (build two_chunks).
Proof.
  split.
  - apply (rebuild_checks_dimension 1 (two_chunks ++ [wide_chunk]) (build two_chunks)).
    apply Exists_exists. exists wide_chunk. split.
    + apply list_elem_of_In. simpl. tauto.
    + simpl. lia.
  - apply (rebuild_checks_dimension 1 two_chunks empty). reflexivity.
Defined.



(** Outside chunk sets: chunks that carry one chunkId are one entry of the
    mapping, and are counted once. *)
Remark rebuild_same_id_is_one_entry :
  chunkCount (describe (snd (rebuild 1 same_id_twice empty))) = 1%nat.
Proof.
  unfold rebuild. simpl. unfold describe, build, same_id_twice. simpl.
  rewrite insert_insert_eq, map_size_insert_None by apply lookup_empty.
  rewrite map_size_empty. reflexivity.
Qed.

End IndexContract.

(** ** The Indexer's partial failure policy *)
Module IndexerFacts.
Import Core External EmbeddingIndex Indexer IndexContract IndexerExamples.

(** [embed_all] keeps the chunks whose embedding succeeded, in order, and
    counts the others. *)
Lemma embed_all_counts (caps : Capabilities) (ps : list Planned) :
  length (fst (embed_all caps ps))
    = length (List.filter (fun p => negb (embedding_fails caps p)) ps)
  /\ snd (embed_all caps ps) = length (List.filter (embedding_fails caps) ps).
Proof.
  induction ps as [|p ps [IH1 IH2]]; simpl; [split; reflexivity|].
  destruct (embed_all caps ps) as [done skipped]. simpl in IH1, IH2.
  destruct (embed caps 0 (plannedText p)) as [v|e] eqn:E.
  - assert (F : embedding_fails caps p = false)
      by (unfold embedding_fails; rewrite E; reflexivity).
    rewrite F. simpl. rewrite IH1, IH2. split; reflexivity.
  - assert (F : embedding_fails caps p = true)
      by (unfold embedding_fails; rewrite E; reflexivity).
    rewrite F. simpl. rewrite IH1, IH2. split; reflexivity.
Qed.

(** Every chunk handed to [rebuild] is a planned chunk with the embedding
    its request returned. *)
Lemma embed_all_sound (caps : Capabilities) (ps : list Planned) (c : IndexedChunk) :
  c ∈ fst (embed_all caps ps) ->
  exists p, p ∈ ps /\ chunkId c = plannedId p /\ text c = plannedText p /\
            Core.documentId c = ofDocument p /\
            embed caps 0 (plannedText p) = Ok (embedding c).
Proof.
  induction ps as [|p ps IH]; simpl.
  - intros H. inversion H.
  - destruct (embed_all caps ps) as [done skipped]. simpl in IH.
    destruct (embed caps 0 (plannedText p)) as [v|e] eqn:E; simpl.
    + intros H. apply elem_of_cons in H. destruct H as [->|H].
      * exists p. simpl. rewrite elem_of_cons. tauto.
      * destruct (IH H) as [p' [Hin Hp']]. exists p'. rewrite elem_of_cons. tauto.
    + intros H. destruct (IH H) as [p' [Hin Hp']]. exists p'.
      rewrite elem_of_cons. tauto.
Qed.

Lemma fold_insert_lookup (new : list IndexedChunk) :
  forall (m : gmap string IndexedChunk) cid c,
    fold_left (fun m c => <[chunkId c := c]> m) new m !! cid = Some c ->
    c ∈ new \/ m !! cid = Some c.
Proof.
  induction new as [|x l IH]; intros m cid c; simpl; [tauto|].
  intros H. destruct (IH _ _ _ H) as [H'|H'].
  - left. apply elem_of_cons. tauto.
  - destruct (decide (chunkId x = cid)) as [Heq|Hne].
    + subst cid. rewrite lookup_insert_eq in H'. left. apply elem_of_cons.
      left. congruence.
    + rewrite lookup_insert_ne in H' by exact Hne. tauto.
Qed.

Lemma filter_split_length {A} (f : A -> bool) (l : list A) :
  length (List.filter (fun x => negb (f x)) l) + length (List.filter f l) = length l.
Proof.
  induction l as [|x l IH]; simpl; [reflexivity|].
  destruct (f x); simpl; lia.
Qed.

(** C2: when the listing fails, [reindex] fails and the live index stays as
    it was; when the listing succeeds, a chunk whose embedding fails is
    skipped and counted and the run does not abort; and with three chunks of
    which one fails the summary has chunkCount 2 and skippedChunks 1. *)
Theorem reindex_partial_failure (caps : Capabilities) (cfg : Config) (D : nat)
  (live : EmbeddingIndex.t) :
  (forall e, listAll caps = Err e -> reindex caps cfg D live = (Err e, live)) /\
  (forall docs,
     listAll caps = Ok docs ->
     (forall p v, p ∈ plan cfg docs -> embed caps 0 (plannedText p) = Ok v ->
                  length v = D) ->
     exists s idx,
       reindex caps cfg D live = (Ok s, idx) /\
       skippedChunks s = length (List.filter (embedding_fails caps) (plan cfg docs)) /\
       chunkCount s = length (plan cfg docs) - skippedChunks s /\
       idx = build (fst (embed_all caps (plan cfg docs))) /\
       (forall cid c, chunks idx !! cid = Some c ->
          exists p, p ∈ plan cfg docs /\ chunkId c = plannedId p /\
                    embed caps 0 (plannedText p) = Ok (embedding c))) /\
  (forall docs,
     listAll caps = Ok docs ->
     (forall p v, p ∈ plan cfg docs -> embed caps 0 (plannedText p) = Ok v ->
                  length v = D) ->
     length (plan cfg docs) = 3 ->
     length (List.filter (embedding_fails caps) (plan cfg docs)) = 1 ->
     exists s idx,
       reindex caps cfg D live = (Ok s, idx) /\
       chunkCount s = 2 /\ skippedChunks s = 1).
Proof.
  assert (Main : forall docs,
     listAll caps = Ok docs ->
     (forall p v, p ∈ plan cfg docs -> embed caps 0 (plannedText p) = Ok v ->
                  length v = D) ->
     exists s idx,
       reindex caps cfg D live = (Ok s, idx) /\
       skippedChunks s = length (List.filter (embedding_fails caps) (plan cfg docs)) /\
       chunkCount s = length (plan cfg docs) - skippedChunks s /\
       idx = build (fst (embed_all caps (plan cfg docs))) /\
       (forall cid c, chunks idx !! cid = Some c ->
          exists p, p ∈ plan cfg docs /\ chunkId c = plannedId p /\
                    embed caps 0 (plannedText p) = Ok (embedding c))).
  { intros docs Hlist Hdim. unfold reindex. rewrite Hlist.
    pose proof (embed_all_counts caps (plan cfg docs)) as [Hc Hs].
    pose proof (embed_all_sound caps (plan cfg docs)) as Hsound.
    pose proof (filter_split_length (embedding_fails caps) (plan cfg docs)) as Hsplit.
    destruct (embed_all caps (plan cfg docs)) as [embedded skipped]. simpl in *.
    assert (Hall : Forall (fun c => length (embedding c) = D) embedded).
    { apply Forall_forall. intros c Hc'.
      destruct (Hsound c Hc') as [p [Hin [_ [_ [_ He]]]]]. exact (Hdim p _ Hin He). }
    unfold rebuild. apply forallb_has_dimension in Hall as Hb. rewrite Hb.
    eexists. eexists. split; [reflexivity|]. simpl.
    split; [exact Hs|]. split; [lia|]. split; [reflexivity|].
    intros cid c Hl.
    assert (Hmem : c ∈ embedded).
    { unfold build in Hl. rewrite build_chunks in Hl.
      destruct (fold_insert_lookup embedded _ cid c Hl) as [?|Hm]; [assumption|].
      simpl in Hm. rewrite lookup_empty in Hm. discriminate. }
    destruct (Hsound c Hmem) as [p [Hin [Hid [_ [_ He]]]]].
    exists p. split; [exact Hin|]. split; [exact Hid | exact He]. }
  split; [|split].
  - intros e He. unfold reindex. rewrite He. reflexivity.
  - exact Main.
  - intros docs Hlist Hdim H3 H1.
    destruct (Main docs Hlist Hdim) as [s [idx [Hr [Hs [Hc _]]]]].
    exists s, idx. split; [exact Hr|]. rewrite Hc, Hs, H3, H1. split; reflexivity.
Qed.

Lemma reindex_partial_failure_witness :
  reindex stub_listing_fails windows_of_four 1 (build IndexExamples.two_chunks)
    = (Err FetchError, build IndexExamples.two_chunks)
  /\ exists s idx,
       reindex stub_fails_on_one windows_of_four 1 EmbeddingIndex.empty = (Ok s, idx) /\
       chunkCount s = 2 /\ skippedChunks s = 1.
Proof.
  split.
  - apply (reindex_partial_failure stub_listing_fails windows_of_four 1
             (build IndexExamples.two_chunks)).
    reflexivity.
  - apply (reindex_partial_failure stub_fails_on_one windows_of_four 1
             EmbeddingIndex.empty) with (docs := [one_document]).
    + reflexivity.
    + intros p v _. simpl. destruct (String.eqb (plannedText p) "bbbb");
        [discriminate | intros [= <-]; reflexivity].
    + reflexivity.
    + reflexivity.
Defined.

End IndexerFacts.

(** ** The classifier and the router *)
Module RouterFacts.
Import Core External Classifier Router RouterExamples.

Local Open Scope string_scope.

(** Whenever the language model returns an output, [classify] returns the
    intent the output's label names, and [UNKNOWN], not an error, when the
    label names none. *)
Lemma classify_validates (caps : Capabilities) (attempt : nat) (requestText : string)
  (out : ModelOutput) :
  languageModel caps attempt requestText = Ok out ->
  exists intent params,
    classify caps attempt requestText = Ok (intent, params) /\
    In intent all_intents /\
    (forall i, parse_intent (label out) = Some i -> intent = i) /\
    (parse_intent (label out) = None -> intent = UNKNOWN).
Proof.
  intros Hlm. unfold classify, validate. rewrite Hlm.
  destruct (parse_intent (label out)) as [i|] eqn:E.
  - exists i, (parameters out). split; [reflexivity|]. split.
    + destruct i; simpl; tauto.
    + split; [intros j [= <-]; reflexivity | discriminate].
  - exists UNKNOWN, ∅. split; [reflexivity|]. split.
    + simpl; tauto.
    + split; [discriminate | reflexivity].
Qed.

(** A failure of the language-model call is the failure of [classify]. *)
Lemma classify_passes_failure (caps : Capabilities) (attempt : nat)
  (requestText : string) (e : Error) :
  languageModel caps attempt requestText = Err e ->
  classify caps attempt requestText = Err e.
Proof. intros H. unfold classify. rewrite H. reflexivity. Qed.


Lemma bind_log {A B} (m : M A) (k : A -> M B) (a : A) :
  snd m = Ok a ->
  bind m k = ((fst m ++ fst (k a))%list, snd (k a)).
Proof.
  destruct m as [log r]. simpl. intros ->. destruct (k a). reflexivity.
Qed.

Lemma resolve_log (caps : Capabilities) (cfg : Config) (idx : EmbeddingIndex.t)
  (requestText : string) :
  snd (resolve caps cfg idx requestText) = fst (route caps cfg idx requestText).
Proof.
  unfold resolve. destruct (route caps cfg idx requestText) as [log [r|e]]; reflexivity.
Qed.



Lemma accounted_ret {A} (a : A) : failures_accounted (ret a).
Proof. intros i c H. simpl in H. rewrite lookup_nil in H. discriminate. Qed.

Lemma accounted_raise {A} (e : Error) : failures_accounted (@raise A e).
Proof. intros i c H. simpl in H. rewrite lookup_nil in H. discriminate. Qed.

Lemma accounted_call {A} (who : Callee) (r : result A) :
  failures_accounted (call who r).
Proof.
  intros [|i] c H Hf; simpl in H; [|rewrite lookup_nil in H; discriminate].
  injection H as <-. simpl in Hf. right. simpl.
  destruct (failed r); [reflexivity | discriminate].
Qed.

Lemma accounted_call_with_retry {A} (retry : bool) (who : Callee)
  (f : nat -> result A) :
  failures_accounted (call_with_retry retry who f).
Proof.
  unfold call_with_retry.
  destruct (f 0%nat) as [a|e] eqn:E0; [apply accounted_call|].
  destruct (retry && is_timeout e); [|apply accounted_call].
  intros [|[|i]] c H Hf; simpl in *.
  - injection H as <-. left. eexists. split; reflexivity.
  - injection H as <-. simpl in Hf. right.
    destruct (failed (f 1%nat)); [reflexivity | discriminate].
  - rewrite lookup_nil in H. discriminate.
Qed.

Lemma accounted_require (params : gmap string string) (name : string) :
  failures_accounted (require params name).
Proof.
  unfold require. destruct (params !! name); [apply accounted_ret | apply accounted_raise].
Qed.

Lemma accounted_bind {A B} (m : M A) (k : A -> M B) :
  failures_accounted m -> (forall a, failures_accounted (k a)) ->
  failures_accounted (bind m k).
Proof.
  intros Hm Hk. destruct m as [log [a|e]]; [|exact Hm].
  rewrite (bind_log (log, Ok a) k a eq_refl). simpl fst in *.
  intros i c H Hf. simpl in H.
  destruct (decide (i < length log)%nat) as [Hlt|Hge].
  - rewrite lookup_app_l in H by exact Hlt.
    destruct (Hm i c H Hf) as [[c' [H' Hc']]|Habs]; [|discriminate Habs].
    left. exists c'. split; [|exact Hc']. simpl.
    apply lookup_app_l_Some. exact H'.
  - rewrite lookup_app_r in H by lia.
    destruct (Hk a _ c H Hf) as [[c' [H' Hc']]|Hend].
    + left. exists c'. split; [|exact Hc']. simpl.
      rewrite lookup_app_r by lia.
      replace (S i - length log)%nat with (S (i - length log)) by lia. exact H'.
    + right. exact Hend.
Qed.

Create HintDb accounted discriminated.
#[local] Hint Resolve accounted_ret accounted_raise accounted_call
  accounted_call_with_retry accounted_require : accounted.

(** Walks a computation of the router bind by bind and branch by branch. *)
Ltac accounted :=
  repeat first
    [ apply accounted_bind; [|intros ?; cbv beta zeta]
    | match goal with
      | |- failures_accounted (if ?b then _ else _) => destruct b
      end
    | solve [auto with accounted] ].

Section Boundary.

Variable caps : Capabilities.
Variable cfg : Config.
Variable idx : EmbeddingIndex.t.

Lemma accounted_dispatch (intent : Intent) (params : gmap string string)
  (requestText : string) :
  failures_accounted (dispatch caps cfg idx intent params requestText).
Proof. destruct intent; unfold dispatch; accounted. Qed.

Lemma accounted_route (requestText : string) :
  failures_accounted (route caps cfg idx requestText).
Proof.
  unfold route, classification. accounted. apply accounted_dispatch.
Qed.

(** Whatever the retry policy, if a call made during [resolve] fails and is
    not retried, [resolve] returns a [RouterResponse] whose error is set and
    whose answer is empty. *)
Lemma resolve_converts_failures (requestText : string) :
  some_failure_surfaced (snd (resolve caps cfg idx requestText)) ->
  exists e,
    snd (route caps cfg idx requestText) = Err e /\
    fst (resolve caps cfg idx requestText)
    = {| answer := ""; sources := []; error := Some (message e) |}.
Proof.
  rewrite resolve_log. intros [i [c [Hl [Hf Hnext]]]].
  pose proof (accounted_route requestText i c Hl Hf) as Hacc.
  unfold resolve.
  destruct (route caps cfg idx requestText) as [log [r|e]]; simpl in *.
  - destruct Hacc as [[c' [H' Hc']]|Habs]; [|discriminate Habs].
    destruct (Hnext c' H' Hc').
  - exists e. split; reflexivity.
Qed.

End Boundary.

Lemma final_ret {A} (a : A) : failures_final (ret a).
Proof. intros i c H. simpl in H. rewrite lookup_nil in H. discriminate. Qed.

Lemma final_raise {A} (e : Error) : failures_final (@raise A e).
Proof. intros i c H. simpl in H. rewrite lookup_nil in H. discriminate. Qed.

Lemma final_call {A} (who : Callee) (r : result A) : failures_final (call who r).
Proof.
  intros [|i] c H Hf; simpl in H; [|rewrite lookup_nil in H; discriminate].
  injection H as <-. simpl in *. destruct (failed r); [reflexivity | discriminate].
Qed.

Lemma final_call_without_retry {A} (who : Callee) (f : nat -> result A) :
  failures_final (call_with_retry false who f).
Proof.
  unfold call_with_retry. destruct (f 0%nat) as [a|e]; apply final_call.
Qed.

Lemma final_require (params : gmap string string) (name : string) :
  failures_final (require params name).
Proof.
  unfold require. destruct (params !! name); [apply final_ret | apply final_raise].
Qed.

Lemma final_bind {A B} (m : M A) (k : A -> M B) :
  failures_final m -> (forall a, failures_final (k a)) ->
  failures_final (bind m k).
Proof.
  intros Hm Hk. destruct m as [log [a|e]]; [|exact Hm].
  rewrite (bind_log (log, Ok a) k a eq_refl). simpl fst in *.
  intros i c H Hf. simpl in H.
  destruct (decide (i < length log)%nat) as [Hlt|Hge].
  - rewrite lookup_app_l in H by exact Hlt. discriminate (Hm i c H Hf).
  - rewrite lookup_app_r in H by lia. exact (Hk a _ c H Hf).
Qed.

#[local] Hint Resolve final_ret final_raise final_call final_call_without_retry
  final_require : accounted.

Ltac final :=
  repeat first
    [ apply final_bind; [|intros ?; cbv beta zeta]
    | match goal with
      | |- failures_final (if ?b then _ else _) => destruct b
      end
    | solve [auto with accounted] ].

(** A router that retries nothing converts every failed call: if any call
    made during [resolve] fails, the error is set and the answer empty. *)
Lemma resolve_without_retry (caps : Capabilities) (cfg : Config)
  (idx : EmbeddingIndex.t) (requestText : string) :
  retryTimeouts cfg = false ->
  some_call_failed (snd (resolve caps cfg idx requestText)) ->
  exists e,
    fst (resolve caps cfg idx requestText)
    = {| answer := ""; sources := []; error := Some (message e) |}.
Proof.
  intros Hr. rewrite resolve_log. intros [i [c [Hl Hf]]].
  assert (Hfin : failures_final (route caps cfg idx requestText)).
  { unfold route, classification. rewrite Hr. final.
    match goal with |- failures_final (dispatch _ _ _ ?i _ _) => destruct i end;
      unfold dispatch; rewrite ?Hr; final. }
  specialize (Hfin i c Hl Hf). unfold resolve.
  destruct (route caps cfg idx requestText) as [log [r|e]]; simpl in *;
    [discriminate Hfin|].
  exists e. reflexivity.
Qed.

(** A router that retries a timeout once recovers from it: the completion
    call that timed out has failed, and [resolve] returns the answer of the
    retry with no error. *)
Example resolve_with_retry_recovers :
  some_call_failed
    (snd (resolve stub_times_out_once plain_config EmbeddingIndex.empty "hi")) /\
  fst (resolve stub_times_out_once plain_config EmbeddingIndex.empty "hi")
  = {| answer := "forty-two"; sources := []; error := None |}.
Proof.
  split; [|reflexivity].
  exists 1%nat, {| callee := ToCompletion; succeeded := false |}.
  split; reflexivity.
Qed.

End RouterFacts.

(** ** The chat page across events *)
Module ChatSessionFacts.
Import JS ChatPage ChatSession.

Lemma send_disabled_guard (st : State) : send_disabled st = guard_blocks st.
Proof. reflexivity. Qed.

(** On the state its render saw, the closure is [send] itself. *)
Lemma send_from_same (env : option jsstring) (st : State) :
  send_from env st st = send_begin env st.
Proof. reflexivity. Qed.

Lemma guard_open (st : State) :
  guard_blocks st = false <->
  forallb is_ws (input st) = false /\ isLoading st = false.
Proof.
  pose proof (ChatPageFacts.guard_blocks_iff st) as H.
  destruct (guard_blocks st), (forallb is_ws (input st)), (isLoading st);
    intuition congruence.
Qed.

Lemma send_from_some (env : option jsstring) (c st st' : State) (req : Request) :
  send_from env c st = Some (st', req) ->
  forallb is_ws (input c) = false /\ isLoading c = false /\
  st' = {| msgs := (msgs st ++ [ {| role := user; content := Some (JStr (input c)) |} ])%list;
           input := []; isLoading := true |} /\
  req = ask_request env (input c).
Proof.
  unfold send_from. destruct (guard_blocks c) eqn:G; [discriminate|].
  intros [= <- <-]. apply guard_open in G. tauto.
Qed.

Lemma send_from_open (env : option jsstring) (c st : State) :
  forallb is_ws (input c) = false -> isLoading c = false ->
  send_from env c st
  = Some ({| msgs := (msgs st ++ [ {| role := user; content := Some (JStr (input c)) |} ])%list;
             input := []; isLoading := true |},
          ask_request env (input c)).
Proof.
  intros Hw Hl. unfold send_from.
  replace (guard_blocks c) with false; [reflexivity|].
  symmetry. apply guard_open. tauto.
Qed.

Lemma turns_snoc (n : nat) : (turns n ++ [user; assistant])%list = turns (S n).
Proof. induction n as [|n IH]; simpl; [reflexivity|]. rewrite IH. reflexivity. Qed.

Lemma question_ask_request (env : option jsstring) (q : jsstring) :
  question (ask_request env q) = Some (JStr q).
Proof. reflexivity. Qed.

(** Whatever the outcome, the content given to the assistant message is
    truthy. *)
Lemma bot_content_truthy (o : FetchOutcome) : truthy (bot_content o) = true.
Proof.
  destruct o as [|ok [data|]]; [reflexivity| |reflexivity].
  destruct data as [| | | | |fields]; try (destruct ok; reflexivity).
  unfold bot_content, try_block. cbn [bind get].
  set (a := own_property fields (lit "answer")).
  set (e := own_property fields (lit "error")).
  destruct ok; cbn [bind].
  - destruct (truthy a) eqn:Ea; cbn [bind]; [exact Ea|].
    destruct (truthy e) eqn:Ee; [exact Ee | reflexivity].
  - change (truthy (Some (JBool false))) with false. cbn [bind].
    destruct (truthy e) eqn:Ee; [exact Ee | reflexivity].
Qed.

Lemma render_none_iff (st : State) :
  render st = None
  <-> forallb (fun m => valid_child (content m)) (msgs st) = false.
Proof.
  unfold render. destruct (forallb _ (msgs st)); split; congruence.
Qed.

Lemma well_formed_mono (T T' : jsstring -> Prop) (m : Msg) :
  (forall s, T s -> T' s) -> well_formed_msg T m -> well_formed_msg T' m.
Proof.
  intros HT. unfold well_formed_msg. destruct (role m); [|tauto].
  intros [s [Hc [Hw Hs]]]. exists s. auto.
Qed.

Lemma coherent_mono (env : option jsstring) (T T' : jsstring -> Prop) (p : Page) :
  (forall s, T s -> T' s) -> coherent env T p -> coherent env T' p.
Proof.
  intros HT [Ha Hq Hm Hi Hs Hc Hp Hl]. constructor; try assumption.
  - eapply Forall_impl; [exact Hm|]. intros m. apply well_formed_mono, HT.
  - destruct Hi; auto.
  - destruct Hs; auto.
Qed.

Lemma coherent_initial (env : option jsstring) (T : jsstring -> Prop) :
  coherent env T initial.
Proof.
  constructor; simpl; try reflexivity; try constructor; try tauto; try lia;
    try discriminate.
Qed.

Lemma coherent_started (env : option jsstring) (T : jsstring -> Prop) (p : Page) :
  coherent env T p -> coherent env T (started p (send_from env (seen p) (ui p))).
Proof.
  intros H. destruct (send_from env (seen p) (ui p)) as [[st' req]|] eqn:E;
    [|exact H].
  destruct H as [Ha Hq Hm Hi Hs Hc Hp Hl].
  apply send_from_some in E. destruct E as [Hw [_ [-> ->]]].
  assert (Ht : T (input (seen p))).
  { destruct Hs as [Hs|Hs]; [|exact Hs]. rewrite Hs in Hw. discriminate Hw. }
  constructor; simpl.
  - rewrite map_app, List.filter_app, map_app, Ha. reflexivity.
  - apply Forall_app. split; [exact Hq|].
    constructor; [|constructor]. exists (input (seen p)). split; [reflexivity | exact Hw].
  - apply Forall_app. split; [exact Hm|].
    constructor; [|constructor]. exists (input (seen p)). auto.
  - left. reflexivity.
  - exact Hs.
  - rewrite !length_app. simpl. lia.
  - rewrite !length_app. simpl. lia.
  - intros _. destruct (inflight p); discriminate.
Qed.

(** Every event keeps the page coherent, whichever render its handler
    belongs to. *)
Lemma coherent_step (env : option jsstring) (T : jsstring -> Prop) (p : Page)
  (ev : Event) :
  coherent env T p ->
  coherent env (fun s => T s \/ ev = Change s) (step env p ev).
Proof.
  intros H0.
  assert (H : coherent env (fun s => T s \/ ev = Change s) p)
    by (eapply coherent_mono; [|exact H0]; tauto).
  unfold step. destruct (alive p); [|exact H].
  destruct ev as [v|e| |i o|].
  - destruct H as [Ha Hq Hm Hi Hs Hc Hp Hl]. constructor; simpl; try assumption.
    right. right. reflexivity.
  - unfold handleKeyDown.
    destruct (jsstring_eqb (key e) (lit "Enter") && negb (shiftKey e));
      simpl; [apply coherent_started; exact H | exact H].
  - destruct (send_disabled (seen p)); [exact H | apply coherent_started; exact H].
  - destruct (inflight p !! i) as [r|] eqn:Ei; [|exact H].
    destruct H as [Ha Hq Hm Hi Hs Hc Hp Hl].
    assert (Hd : length (delete i (inflight p)) = (length (inflight p) - 1)%nat)
      by (apply length_delete; eauto).
    assert (Hpos : (1 <= length (inflight p))%nat).
    { apply lookup_lt_Some in Ei. lia. }
    constructor; simpl; try assumption.
    + rewrite List.filter_app. simpl. rewrite app_nil_r. exact Ha.
    + apply Forall_app. split; [exact Hm|].
      constructor; [|constructor]. apply bot_content_truthy.
    + rewrite length_app, Hd. simpl. lia.
    + rewrite Hd. lia.
    + discriminate.
  - destruct H as [Ha Hq Hm Hi Hs Hc Hp Hl].
    destruct (render (ui p)); constructor; simpl; assumption.
Qed.

Lemma coherent_run (env : option jsstring) (evs : list Event) :
  forall (T : jsstring -> Prop) p,
    coherent env T p ->
    coherent env (fun s => T s \/ In (Change s) evs) (run env p evs).
Proof.
  induction evs as [|ev evs IH]; intros T p H; simpl.
  - eapply coherent_mono; [|exact H]. tauto.
  - eapply coherent_mono; [|apply IH, coherent_step, H].
    simpl. intros s [[Hs|Hs]|Hs]; auto.
Qed.

Lemma reachable_coherent (env : option jsstring) (evs : list Event) :
  coherent env (fun s => In (Change s) evs) (run env initial evs).
Proof.
  eapply coherent_mono; [|apply (coherent_run env evs (fun _ => False)), coherent_initial].
  simpl. tauto.
Qed.

Lemma in_step_started (env : option jsstring) (p : Page) :
  in_step p -> in_step (started p (send_from env (ui p) (ui p))).
Proof.
  intros [Hf [settled Hp] Hr].
  destruct (send_from env (ui p) (ui p)) as [[st' req]|] eqn:E;
    [|constructor; eauto].
  apply send_from_some in E. destruct E as [_ [Hl [-> ->]]].
  rewrite Hl in Hf, Hr.
  assert (Hnil : inflight p = []) by (destruct (inflight p); [reflexivity | discriminate]).
  rewrite Hnil in *. simpl in Hr. rewrite Nat.sub_0_r, app_nil_r in Hr.
  constructor; simpl; rewrite ?Hnil; simpl.
  - reflexivity.
  - exists (sent p). reflexivity.
  - rewrite map_app, Hr, length_app. simpl.
    replace (length (sent p) + 1 - 1)%nat with (length (sent p)) by lia. reflexivity.
Qed.

(** An event whose handler belongs to a render of the current state keeps
    the request in flight and the order of the messages as they should
    be. *)
Lemma in_step_event (env : option jsstring) (p : Page) (ev : Event) :
  synced p -> in_step (step env p ev).
Proof.
  intros [H Hseen _]. unfold step. destruct (alive p); [|exact H].
  rewrite (Hseen eq_refl).
  destruct ev as [v|e| |i o|].
  - destruct H as [Hf Hp Hr]. constructor; assumption.
  - unfold handleKeyDown.
    destruct (jsstring_eqb (key e) (lit "Enter") && negb (shiftKey e));
      simpl; [apply in_step_started; exact H | exact H].
  - destruct (send_disabled (ui p)); [exact H | apply in_step_started; exact H].
  - destruct (inflight p !! i) as [r|] eqn:Ei; [|exact H].
    destruct H as [Hf [settled Hp] Hr].
    destruct (isLoading (ui p)) eqn:El;
      [|destruct (inflight p); [rewrite lookup_nil in Ei|]; discriminate].
    destruct (inflight p) as [|r0 [|r1 rest]] eqn:Einf; try discriminate Hf.
    destruct i as [|i]; [|rewrite lookup_cons, lookup_nil in Ei; discriminate Ei].
    constructor; simpl.
    + reflexivity.
    + exists (sent p). rewrite app_nil_r. reflexivity.
    + rewrite map_app, Hr, Hp, length_app. simpl.
      replace (length settled + 1 - 1)%nat with (length settled) by lia.
      replace (length settled + 1 - 0)%nat with (S (length settled)) by lia.
      rewrite <- app_assoc, app_nil_r. simpl. apply turns_snoc.
  - destruct H as [Hf Hp Hr].
    destruct (render (ui p)); constructor; assumption.
Qed.

Lemma synced_render (env : option jsstring) (q : Page) :
  in_step q -> synced (step env q Render).
Proof.
  intros H. unfold step. destruct (alive q) eqn:Ea.
  - unfold render. destruct (forallb _ (msgs (ui q))) eqn:Ev.
    + destruct H as [Hf Hp Hr]. constructor; simpl; [constructor; assumption| |]; auto.
    + destruct H as [Hf Hp Hr]. constructor; simpl;
        [constructor; assumption | discriminate | discriminate].
  - constructor; [exact H | |]; rewrite Ea; discriminate.
Qed.

Lemma synced_rendered (env : option jsstring) (evs : list Event) :
  forall p, synced p -> synced (run env p (rendered evs)).
Proof.
  induction evs as [|ev evs IH]; intros p H; simpl; [exact H|].
  apply IH, synced_render, in_step_event, H.
Qed.

Lemma synced_initial : synced initial.
Proof.
  constructor; [constructor|..]; simpl; try reflexivity.
  exists []. reflexivity.
Qed.

Lemma reachable_synced (env : option jsstring) (evs : list Event) :
  synced (run env initial (rendered evs)).
Proof. apply synced_rendered, synced_initial. Qed.

End ChatSessionFacts.

(** ** What holds of the chat page after any events *)
Module ChatSessionProperties.
Import JS ChatPage ChatSession ChatSessionFacts.

Lemma jsstring_eqb_eq (a : jsstring) :
  forall b, jsstring_eqb a b = true <-> a = b.
Proof.
  induction a as [|x a IH]; intros [|y b]; simpl; try (split; congruence).
  rewrite andb_true_iff, N.eqb_eq, IH. split.
  - intros [-> ->]. reflexivity.
  - intros [= -> ->]. split; reflexivity.
Qed.

Lemma run_app (env : option jsstring) (p : Page) (evs evs' : list Event) :
  run env p (evs ++ evs') = run env (run env p evs) evs'.
Proof. unfold run. apply fold_left_app. Qed.

Lemma forallb_false_Exists {A : Type} (f : A -> bool) (l : list A) :
  forallb f l = false <-> Exists (fun x => f x = false) l.
Proof.
  induction l as [|x l IH]; simpl.
  - split; [discriminate | intros H; inversion H].
  - rewrite andb_false_iff, IH. split.
    + intros [H|H]; [apply Exists_cons_hd, H | apply Exists_cons_tl, H].
    + intros H. inversion H; tauto.
Qed.

(** X1: when the page re-renders after every event, then after any series
    of events at most one request is in flight, the loading flag is set
    exactly while one is, and the request in flight is the last one made. *)
Theorem single_flight (env : option jsstring) (evs : list Event) :
  (length (inflight (run env initial (rendered evs))) <= 1)%nat /\
  (isLoading (ui (run env initial (rendered evs))) = true
   <-> inflight (run env initial (rendered evs)) <> []) /\
  (exists settled,
     sent (run env initial (rendered evs))
     = (settled ++ inflight (run env initial (rendered evs)))%list).
Proof.
  destruct (reachable_synced env evs) as [[Hf Hp _] _ _].
  split; [|split; [|exact Hp]].
  - rewrite Hf. destruct (isLoading _); lia.
  - destruct (isLoading _); destruct (inflight _); simpl in Hf;
      split; congruence.
Qed.

(** X2: when the page re-renders after every event, then after any series
    of events the messages alternate user, assistant, from a user message
    on: one pair per settled request, and one more user message exactly
    while a request is in flight. *)
Theorem conversation_alternates (env : option jsstring) (evs : list Event) :
  map role (msgs (ui (run env initial (rendered evs))))
  = (turns (length (sent (run env initial (rendered evs)))
            - length (inflight (run env initial (rendered evs))))
     ++ (if isLoading (ui (run env initial (rendered evs))) then [user] else []))%list.
Proof. apply ins_roles, syn_step, reachable_synced. Qed.

(** X3: after any series of events the questions of the requests made, in
    order, are the contents of the user messages shown, in order; and every
    request is a POST of JSON to the [/ask] endpoint of the server. *)
Theorem questions_are_user_messages (env : option jsstring) (evs : list Event) :
  map question (sent (run env initial evs))
  = map content (List.filter is_user (msgs (ui (run env initial evs)))) /\
  Forall (fun r => url r = (MCP_SERVER env ++ lit "/ask")%list /\
                   method r = lit "POST" /\
                   headers r = [(lit "Content-Type", lit "application/json")])
         (sent (run env initial evs)).
Proof.
  destruct (reachable_coherent env evs) as [Ha Hq _ _ _ _ _ _].
  split; [exact Ha|].
  eapply Forall_impl; [exact Hq|].
  intros r [q [-> _]]. repeat split.
Qed.

(** X4: after any series of events every user message holds, unaltered, one
    of the texts the textarea reported through [onChange], a string with a
    character that is not white space; and every assistant message holds a
    truthy value: never the empty string the message starts out with, [null]
    or [undefined]. *)
Theorem messages_well_formed (env : option jsstring) (evs : list Event) :
  Forall (well_formed_msg (fun s => In (Change s) evs))
         (msgs (ui (run env initial evs))).
Proof. apply (coh_msgs env), reachable_coherent. Qed.

(** X5: when the members [answer] and [error] of the response body are
    strings where present, the assistant message's content is a string that
    is not empty, whatever the outcome of the request. *)
Theorem assistant_text_nonempty (o : FetchOutcome) :
  string_fields o ->
  exists s, bot_content o = Some (JStr s) /\ s <> [].
Proof.
  intros Hs.
  assert (Hstr : exists s, bot_content o = Some (JStr s)).
  { destruct o as [|ok [data|]]; try (eexists; reflexivity).
    destruct data as [| | | | |fields]; try (destruct ok; eexists; reflexivity).
    destruct Hs as [Hans Herr].
    unfold bot_content, try_block. cbn [bind get].
    set (a := own_property fields (lit "answer")) in *.
    set (e := own_property fields (lit "error")) in *.
    assert (He : exists s, (if truthy e then e else Some (JStr (lit "An error occurred.")))
                           = Some (JStr s)).
    { destruct (truthy e) eqn:Ee; [|eexists; reflexivity].
      destruct e as [v|]; [|discriminate Ee].
      destruct (Herr v eq_refl) as [s ->]. exists s. reflexivity. }
    destruct ok; cbn [bind].
    - destruct (truthy a) eqn:Ea; cbn [bind]; [|exact He].
      destruct a as [v|]; [|discriminate Ea].
      destruct (Hans v eq_refl) as [s ->]. exists s. reflexivity.
    - change (truthy (Some (JBool false))) with false. cbn [bind]. exact He. }
  destruct Hstr as [s Hc]. exists s. split; [exact Hc|].
  pose proof (bot_content_truthy o) as Ht. rewrite Hc in Ht.
  intros ->. discriminate Ht.
Qed.

Lemma assistant_text_nonempty_witness :
  exists s,
    bot_content (Resolved true (Some (JObj [(lit "answer", JStr (lit "hello"))])))
    = Some (JStr s) /\ s <> [].
Proof.
  apply (assistant_text_nonempty
           (Resolved true (Some (JObj [(lit "answer", JStr (lit "hello"))])))).
  split; intros v H; vm_compute in H.
  - injection H as <-. eexists. reflexivity.
  - discriminate H.
Defined.

(** X6: after any series of events the render of the page throws exactly
    when the content of some message is no valid React child (an object);
    when it does not throw, the placeholder is rendered exactly when no
    request was ever made, and while [isLoading] is set the conversation is
    rendered, one row per message, with the row of loading dots. *)
Theorem loading_row_is_shown (env : option jsstring) (evs : list Event) :
  (render (ui (run env initial evs)) = None
   <-> Exists (fun m => valid_child (content m) = false)
              (msgs (ui (run env initial evs)))) /\
  (forall v,
     render (ui (run env initial evs)) = Some v ->
     (messageArea v = Placeholder <-> sent (run env initial evs) = []) /\
     (isLoading (ui (run env initial evs)) = true ->
      exists rows,
        messageArea v = Conversation rows true /\
        length rows = length (msgs (ui (run env initial evs))))).
Proof.
  destruct (reachable_coherent env evs) as [_ _ _ _ _ Hc Hp Hl].
  set (p := run env initial evs) in *.
  split.
  - rewrite render_none_iff. apply forallb_false_Exists.
  - intros v Hv. unfold render in Hv.
    destruct (forallb _ (msgs (ui p))); [|discriminate Hv].
    injection Hv as <-. simpl. split.
    + split.
      * intros Hb. destruct (msgs (ui p)) eqn:Em; [|discriminate Hb].
        simpl in Hc. destruct (sent p); [reflexivity | simpl in *; lia].
      * intros Hs. rewrite Hs in Hc. simpl in Hc.
        destruct (msgs (ui p)); [reflexivity | simpl in Hc; lia].
    + intros Hload. specialize (Hl Hload).
      destruct (msgs (ui p)) as [|m ms] eqn:Em.
      * exfalso. simpl in Hc. destruct (inflight p); [congruence|].
        simpl in *. lia.
      * rewrite Hload. eexists. split; [reflexivity|]. apply length_imap.
Qed.

Lemma loading_row_is_shown_witness :
  exists rows,
    messageArea {| messageArea :=
                     Conversation
                       (imap render_row
                          (msgs (ui (run None initial [Change (lit "hi"); Render; Click]))))
                       true;
                   textareaValue := [];
                   buttonDisabled := true |}
    = Conversation rows true /\
    length rows = length (msgs (ui (run None initial [Change (lit "hi"); Render; Click]))).
Proof.
  apply (loading_row_is_shown None [Change (lit "hi"); Render; Click]);
    reflexivity.
Defined.

(** X7: the expression that disables the send button is true exactly when
    [send] would return at its guard and make no request, that is when the
    input is empty or white space only or [isLoading] is set; and a render
    that does not throw gives the button that value. *)
Theorem button_matches_send (env : option jsstring) (net : Request -> FetchOutcome)
  (st : State) :
  (send_disabled st = true <-> snd (send env net st) = []) /\
  (send_disabled st = true
   <-> forallb is_ws (input st) = true \/ isLoading st = true) /\
  (forall v, render st = Some v -> buttonDisabled v = send_disabled st).
Proof.
  rewrite send_disabled_guard. split; [|split].
  - unfold send, send_begin. destruct (guard_blocks st); simpl; split; congruence.
  - apply ChatPageFacts.guard_blocks_iff.
  - intros v Hv. unfold render in Hv.
    destruct (forallb _ (msgs st)); [|discriminate Hv].
    injection Hv as <-. reflexivity.
Qed.

(** X8: [handleKeyDown] calls [preventDefault] exactly for Enter without
    Shift, and starts a request exactly when, besides, the input its render
    saw has a character that is not white space and the [isLoading] its
    render saw is not set; the request is the one [send] makes, which on the
    state the render saw is [send] of the claims. *)
Theorem keydown_sends_on_plain_enter (env : option jsstring) (e : KeyboardEvent)
  (c st : State) :
  (fst (handleKeyDown env e c st) = true
   <-> key e = lit "Enter" /\ shiftKey e = false) /\
  (snd (handleKeyDown env e c st) <> None
   <-> key e = lit "Enter" /\ shiftKey e = false /\
       forallb is_ws (input c) = false /\ isLoading c = false) /\
  (snd (handleKeyDown env e c st) = None
   \/ snd (handleKeyDown env e c st) = send_from env c st) /\
  send_from env st st = send_begin env st.
Proof.
  split; [|split; [|split; [|reflexivity]]]; unfold handleKeyDown;
    destruct (jsstring_eqb (key e) (lit "Enter")) eqn:Ek;
    try (apply jsstring_eqb_eq in Ek);
    try (assert (Hne : key e <> lit "Enter")
           by (intros H; apply jsstring_eqb_eq in H; congruence));
    destruct (shiftKey e); simpl;
    try (left; reflexivity); try (right; reflexivity);
    try (split; [congruence | intros H; destruct H as [H1 [H2 _]] || destruct H as [H1 H2];
                              congruence]);
    try tauto.
  split.
  - intros Hs. destruct (send_from env c st) as [[st' req]|] eqn:E; [|congruence].
    apply send_from_some in E. tauto.
  - intros [_ [_ [Hw Hl]]]. rewrite (send_from_open env c st Hw Hl). discriminate.
Qed.

(** X9: no event removes or changes a message: after any series of events
    the messages before it are a prefix of the messages after it, and at
    most one message is added per event. *)
Theorem messages_append_only (env : option jsstring) (evs : list Event) :
  forall p, exists added,
    msgs (ui (run env p evs)) = (msgs (ui p) ++ added)%list /\
    (length added <= length evs)%nat.
Proof.
  induction evs as [|ev evs IH]; intros p; simpl.
  - exists []. rewrite app_nil_r. split; [reflexivity | simpl; lia].
  - assert (Hstep : exists one, msgs (ui (step env p ev)) = (msgs (ui p) ++ one)%list
                                /\ (length one <= 1)%nat).
    { assert (Hnone : exists one, msgs (ui p) = (msgs (ui p) ++ one)%list
                                  /\ (length one <= 1)%nat).
      { exists []. rewrite app_nil_r. split; [reflexivity | simpl; lia]. }
      assert (Hstart : forall r, r = None \/ r = send_from env (seen p) (ui p) ->
                exists one, msgs (ui (started p r)) = (msgs (ui p) ++ one)%list
                            /\ (length one <= 1)%nat).
      { intros r [->| ->]; [exact Hnone|].
        destruct (send_from env (seen p) (ui p)) as [[st' req]|] eqn:E; simpl;
          [|exact Hnone].
        apply send_from_some in E. destruct E as [_ [_ [-> _]]].
        eexists. split; [reflexivity | simpl; lia]. }
      unfold step. destruct (alive p); [|exact Hnone].
      destruct ev as [v|e| |i o|]; simpl.
      - exact Hnone.
      - apply Hstart. unfold handleKeyDown.
        destruct (jsstring_eqb (key e) (lit "Enter") && negb (shiftKey e)); simpl; tauto.
      - destruct (send_disabled (seen p)); [exact Hnone | apply Hstart; tauto].
      - destruct (inflight p !! i); simpl; [|exact Hnone].
        eexists. split; [reflexivity | simpl; lia].
      - destruct (render (ui p)); exact Hnone. }
    destruct Hstep as [one [H1 L1]].
    destruct (IH (step env p ev)) as [more [H2 L2]].
    exists (one ++ more)%list.
    change (run env p (ev :: evs)) with (run env (step env p ev) evs).
    rewrite H2, H1, <- app_assoc.
    split; [reflexivity|]. rewrite length_app. lia.
Qed.

Lemma step_change (env : option jsstring) (p : Page) (v : jsstring) :
  alive p = true ->
  step env p (Change v)
  = {| ui := {| msgs := msgs (ui p); input := v; isLoading := isLoading (ui p) |};
       seen := seen p; alive := true; inflight := inflight p; sent := sent p |}.
Proof. intros Ha. unfold step. rewrite Ha. reflexivity. Qed.

Lemma step_settle_none (env : option jsstring) (p : Page) (i : nat) (o : FetchOutcome) :
  inflight p !! i = None -> step env p (Settle i o) = p.
Proof. intros Hi. unfold step. rewrite Hi. destruct (alive p); reflexivity. Qed.

Lemma step_settle_head (env : option jsstring) (p : Page) (o : FetchOutcome)
  (r : Request) (rest : list Request) :
  alive p = true -> inflight p = r :: rest ->
  step env p (Settle 0 o)
  = {| ui := send_settle o (ui p); seen := seen p; alive := true;
       inflight := rest; sent := sent p |}.
Proof. intros Ha Hi. unfold step. rewrite Ha, Hi. reflexivity. Qed.

Lemma step_render (env : option jsstring) (p : Page) :
  alive p = true ->
  forallb (fun m => valid_child (content m)) (msgs (ui p)) = true ->
  step env p Render
  = {| ui := ui p; seen := ui p; alive := true;
       inflight := inflight p; sent := sent p |}.
Proof. intros Ha Hv. unfold step, render. rewrite Ha, Hv. reflexivity. Qed.

Lemma step_render_requests (env : option jsstring) (p : Page) :
  inflight (step env p Render) = inflight p /\
  sent (step env p Render) = sent p.
Proof.
  unfold step. destruct (alive p); [|tauto].
  destruct (render (ui p)); simpl; tauto.
Qed.

(** X10: when the page re-renders after every event it does not stay
    blocked: if it is still mounted and the content of the response is a
    valid child, then once the request in flight has settled a text with a
    character that is not white space, typed and sent with the button, goes
    out as the one request in flight. *)
Theorem ready_after_settling (env : option jsstring) (evs : list Event)
  (o : FetchOutcome) (v : jsstring) :
  alive (run env initial (rendered evs)) = true ->
  valid_child (bot_content o) = true ->
  forallb is_ws v = false ->
  inflight (run env (run env initial (rendered evs))
              (rendered [Settle 0 o; Change v; Click]))
    = [ask_request env v] /\
  sent (run env (run env initial (rendered evs))
          (rendered [Settle 0 o; Change v; Click]))
    = (sent (run env initial (rendered evs)) ++ [ask_request env v])%list.
Proof.
  intros Ha Hvalid Hv.
  destruct (reachable_synced env evs) as [[Hf _ _] Hseen Hval].
  set (p := run env initial (rendered evs)) in *.
  specialize (Hseen Ha). specialize (Hval Ha).
  (* the fetch settles, and the page renders *)
  set (p1 := step env (step env p (Settle 0 o)) Render).
  assert (H1 : alive p1 = true /\ isLoading (ui p1) = false /\ inflight p1 = []
               /\ sent p1 = sent p
               /\ forallb (fun m => valid_child (content m)) (msgs (ui p1)) = true).
  { destruct (inflight p) as [|r rest] eqn:Ei.
    - assert (El : isLoading (ui p) = false)
        by (destruct (isLoading (ui p)); [discriminate Hf | reflexivity]).
      unfold p1. rewrite (step_settle_none env p 0 o) by (rewrite Ei; reflexivity).
      rewrite (step_render env p Ha Hval). simpl. tauto.
    - assert (Hrest : rest = [])
        by (destruct rest; [reflexivity | destruct (isLoading (ui p)); discriminate Hf]).
      assert (Hval' : forallb (fun m => valid_child (content m))
                              (msgs (send_settle o (ui p))) = true).
      { simpl. rewrite forallb_app, Hval. simpl. rewrite Hvalid. reflexivity. }
      unfold p1. rewrite (step_settle_head env p o r rest Ha Ei), Hrest.
      rewrite step_render by (reflexivity || exact Hval').
      repeat split. exact Hval'. }
  destruct H1 as [A1 [L1 [I1 [S1 V1]]]].
  (* the text is typed, and the page renders *)
  set (p2 := step env (step env p1 (Change v)) Render).
  assert (H2 : p2 = {| ui := {| msgs := msgs (ui p1); input := v; isLoading := false |};
                       seen := {| msgs := msgs (ui p1); input := v; isLoading := false |};
                       alive := true; inflight := []; sent := sent p |}).
  { unfold p2. rewrite (step_change env p1 v A1), L1, I1, S1.
    rewrite step_render; [reflexivity | reflexivity | exact V1]. }
  (* the button is clicked, and the page renders *)
  assert (H3 : step env p2 Click
               = {| ui := {| msgs := (msgs (ui p1)
                                      ++ [ {| role := user; content := Some (JStr v) |} ])%list;
                             input := []; isLoading := true |};
                    seen := seen p2; alive := true;
                    inflight := [ask_request env v];
                    sent := (sent p ++ [ask_request env v])%list |}).
  { assert (Hd : send_disabled (seen p2) = false).
    { rewrite send_disabled_guard. apply guard_open. rewrite H2. simpl. tauto. }
    unfold step. rewrite Hd.
    rewrite (send_from_open env (seen p2) (ui p2)) by (rewrite H2; assumption || reflexivity).
    rewrite H2. reflexivity. }
  change (run env p (rendered [Settle 0 o; Change v; Click]))
    with (step env (step env p2 Click) Render).
  destruct (step_render_requests env (step env p2 Click)) as [-> ->].
  rewrite H3. simpl. tauto.
Qed.

Lemma ready_after_settling_witness :
  inflight (run None (run None initial (rendered [Change (lit "hi"); Click]))
              (rendered [Settle 0 Rejected; Change (lit "again"); Click]))
    = [ask_request None (lit "again")] /\
  sent (run None (run None initial (rendered [Change (lit "hi"); Click]))
          (rendered [Settle 0 Rejected; Change (lit "again"); Click]))
    = (sent (run None initial (rendered [Change (lit "hi"); Click]))
       ++ [ask_request None (lit "again")])%list.
Proof.
  apply (ready_after_settling None [Change (lit "hi"); Click] Rejected (lit "again"));
    reflexivity.
Defined.

(** X13: two presses of Enter that the handler of one render receives, with
    no re-render between them, both pass the guard: the same question is
    sent twice, two requests are in flight and two user messages follow one
    another. *)
Theorem enter_twice_sends_twice (env : option jsstring) (v : jsstring) :
  forallb is_ws v = false ->
  inflight (run env initial [Change v; Render; KeyDown plain_enter; KeyDown plain_enter])
    = [ask_request env v; ask_request env v] /\
  map role (msgs (ui (run env initial
                        [Change v; Render; KeyDown plain_enter; KeyDown plain_enter])))
    = [user; user] /\
  map content (msgs (ui (run env initial
                           [Change v; Render; KeyDown plain_enter; KeyDown plain_enter])))
    = [Some (JStr v); Some (JStr v)].
Proof.
  intros Hv. unfold run. cbn [fold_left].
  set (p := step env (step env initial (Change v)) Render).
  assert (Hp : p = {| ui := {| msgs := []; input := v; isLoading := false |};
                      seen := {| msgs := []; input := v; isLoading := false |};
                      alive := true; inflight := []; sent := [] |})
    by reflexivity.
  assert (Hk : forall q, alive q = true -> seen q = seen p ->
                step env q (KeyDown plain_enter)
                = started q (send_from env (seen p) (ui q))).
  { intros q Ha Hs. unfold step. rewrite Ha, Hs. reflexivity. }
  assert (Ho : forall st, send_from env (seen p) st
                = Some ({| msgs := (msgs st ++ [ {| role := user; content := Some (JStr v) |} ])%list;
                           input := []; isLoading := true |},
                        ask_request env v)).
  { intros st. rewrite Hp. apply (send_from_open env); [exact Hv | reflexivity]. }
  rewrite (Hk p) by (rewrite Hp; reflexivity). rewrite Ho. cbn [started].
  rewrite Hk by reflexivity. rewrite Ho. rewrite Hp. simpl. repeat split.
Qed.

Lemma enter_twice_sends_twice_witness :
  inflight (run None initial
              [Change (lit "hi"); Render; KeyDown plain_enter; KeyDown plain_enter])
    = [ask_request None (lit "hi"); ask_request None (lit "hi")] /\
  map role (msgs (ui (run None initial
                        [Change (lit "hi"); Render; KeyDown plain_enter; KeyDown plain_enter])))
    = [user; user] /\
  map content (msgs (ui (run None initial
                           [Change (lit "hi"); Render; KeyDown plain_enter; KeyDown plain_enter])))
    = [Some (JStr (lit "hi")); Some (JStr (lit "hi"))].
Proof.
  apply (enter_twice_sends_twice None (lit "hi")). reflexivity.
Defined.

End ChatSessionProperties.

(** ** The sidebar *)
Module SidebarFacts.
Import JS Sidebar.

Lemma highlighted_iff_current (path : jsstring) (item : NavItem) :
  highlighted
    {| linkKey := href item; target := href item;
       className := clsx [base_classes;
                          if jsstring_eqb path (href item)
                          then active_classes else inactive_classes];
       glyph := icon item; caption := label item |}
  = jsstring_eqb path (href item).
Proof.
  unfold highlighted. simpl className.
  destruct (jsstring_eqb path (href item)); vm_compute; reflexivity.
Qed.

(** X11: for every pathname a link of the sidebar is drawn as the current
    page exactly when its target equals the pathname, so at most one link is
    highlighted, and none on a path that is no link's target; the keys of
    the links are pairwise distinct. *)
Theorem one_link_highlighted (path : jsstring) :
  (forall l, In l (render path) -> (highlighted l = true <-> target l = path)) /\
  (length (List.filter highlighted (render path)) <= 1)%nat /\
  ((forall l, In l (render path) -> target l <> path) ->
   List.filter highlighted (render path) = []) /\
  NoDup (map linkKey (render path)).
Proof.
  assert (Hall : forall l, In l (render path) ->
                           (highlighted l = true <-> target l = path)).
  { intros l Hin. unfold render in Hin. apply in_map_iff in Hin.
    destruct Hin as [item [<- _]]. rewrite highlighted_iff_current. simpl.
    rewrite ChatSessionProperties.jsstring_eqb_eq. split; congruence. }
  split; [exact Hall|]. split; [|split].
  - unfold render, nav. cbn [map List.filter].
    rewrite !highlighted_iff_current. cbn [href].
    destruct (jsstring_eqb path (lit "/chat")) eqn:E1;
      destruct (jsstring_eqb path (lit "/connections")) eqn:E2;
      destruct (jsstring_eqb path (lit "/uploads")) eqn:E3;
      destruct (jsstring_eqb path (lit "/settings")) eqn:E4;
      simpl; try lia; exfalso;
      repeat match goal with
             | H : jsstring_eqb _ _ = true |- _ =>
                 apply ChatSessionProperties.jsstring_eqb_eq in H
             end;
      subst; discriminate.
  - intros Hnone. induction (render path) as [|l ls IH]; [reflexivity|].
    simpl. destruct (highlighted l) eqn:E.
    + exfalso. apply (Hnone l); [left; reflexivity|].
      apply Hall; [left; reflexivity | exact E].
    + apply IH.
      * intros l' Hin. apply Hall. right. exact Hin.
      * intros l' Hin. apply Hnone. right. exact Hin.
  - unfold render, nav. simpl.
    repeat constructor; rewrite ?list_elem_of_In; simpl; intuition discriminate.
Qed.

Lemma one_link_highlighted_witness :
  List.filter highlighted (render (lit "/chat/42")) = [].
Proof.
  apply (one_link_highlighted (lit "/chat/42")).
  intros l Hin. unfold render in Hin. apply in_map_iff in Hin.
  destruct Hin as [item [<- Hitem]]. simpl.
  unfold nav in Hitem. simpl in Hitem.
  intuition (subst; discriminate).
Defined.

End SidebarFacts.

(** ** The uploads page *)
Module UploadsPageFacts.
Import JS UploadsPage.

(** X12: a selection replaces the files listed rather than adding to them, a
    change event without a file list leaves them as they are, and the Upload
    button is rendered exactly when a file is listed, one item per file in
    the order selected. *)
Theorem selection_replaces :
  (forall selections fl, after (selections ++ [Some fl]) = fl) /\
  (forall selections, after (selections ++ [None]) = after selections) /\
  (forall files, uploadButton (render files) = true <-> files <> []) /\
  (forall files, map fst (items (render files)) = map name files
                 /\ map snd (items (render files)) = map name files).
Proof.
  unfold after. split; [|split; [|split]].
  - intros selections fl. rewrite fold_left_app. reflexivity.
  - intros selections. rewrite fold_left_app. reflexivity.
  - intros files. destruct files; simpl; split; congruence.
  - intros files. simpl. rewrite !map_map. split; reflexivity.
Qed.

End UploadsPageFacts.
